(** * dbmap: mapping SQL rows to annotated Go structs

    A shallow embedding of the Go package [dbmap] (map.go, native.go,
    json.go, testutil.go) and the properties of its schema builder, row
    scanner and cursor consumers.

    Go strings are byte sequences: they are modelled as [string], whose
    characters are the 256 values of [ascii]. *)

From Stdlib Require Import Ascii String ZArith Lia SpecFloat.
From Equations Require Import Equations.
From stdpp Require Import base option list strings gmap sorting.

Local Open Scope string_scope.
Local Open Scope list_scope.

(** * Part I: the program

    ** Strings *)

Module Strings.

(** The byte range of the class [[A-Z]]. *)
Definition is_upper (c : ascii) : bool :=
  (65 <=? nat_of_ascii c)%nat && (nat_of_ascii c <=? 90)%nat.

(** The byte range of the class [\d]. *)
Definition is_digit (c : ascii) : bool :=
  (48 <=? nat_of_ascii c)%nat && (nat_of_ascii c <=? 57)%nat.

Definition lower_char (c : ascii) : ascii :=
  if is_upper c then ascii_of_nat (nat_of_ascii c + 32) else c.

(** [strings.ToLower], on the bytes of ASCII: the package applies it to
    runs of [[A-Z]] only, where Go's Unicode case mapping is this one. *)
Fixpoint ToLower (s : string) : string :=
  match s with
  | "" => ""
  | String c s' => String (lower_char c) (ToLower s')
  end.

(** [strings.Join]. *)
Fixpoint Join (parts : list string) (sep : string) : string :=
  match parts with
  | [] => ""
  | [p] => p
  | p :: rest => p +:+ sep +:+ Join rest sep
  end.

(** The longest prefix of [s] whose bytes satisfy [p], and what follows
    it: how a greedy repetition of a character class matches. *)
Fixpoint span (p : ascii -> bool) (s : string) : string * string :=
  match s with
  | "" => ("", "")
  | String c s' =>
      if p c then (String c (span p s').1, (span p s').2) else ("", s)
  end.

Fixpoint all_chars (p : ascii -> bool) (s : string) : bool :=
  match s with
  | "" => true
  | String c s' => p c && all_chars p s'
  end.

(** [head[:i]] and [head[i:]]. *)
Fixpoint take (n : nat) (s : string) : string :=
  match n, s with
  | S n', String c s' => String c (take n' s')
  | _, _ => ""
  end.

Fixpoint drop (n : nat) (s : string) : string :=
  match n, s with
  | S n', String _ s' => drop n' s'
  | _, _ => s
  end.

End Strings.

(** ** Column names inferred from field names *)

(** A value together with the equation that it is the scrutinee. *)
Definition inspect {A : Type} (x : A) : {y : A | x = y} := exist _ x eq_refl.

(** [fieldNameRe], the compiled pattern of two groups (one or more bytes of
    [[A-Z]], then zero or more bytes outside [[A-Z]]), through
    [FindAllStringSubmatch(fieldName, -1)]: the successive leftmost matches,
    each given by its two groups [m[1]] and [m[2]].  A match starts at the
    first byte of [[A-Z]] at or after the end of the previous one; both
    repetitions are greedy and neither can fail, so no backtracking occurs. *)
Equations? fieldNameRe_FindAllStringSubmatch (s : string) : list (string * string)
  by wf (String.length s) lt :=
  fieldNameRe_FindAllStringSubmatch "" := [];
  fieldNameRe_FindAllStringSubmatch (String c s') with inspect (Strings.is_upper c) => {
    | exist _ false Hc := fieldNameRe_FindAllStringSubmatch s';
    | exist _ true Hc :=
        let m1 := Strings.span Strings.is_upper (String c s') in
        let m2 := Strings.span (λ c, negb (Strings.is_upper c)) m1.2 in
        (m1.1, m2.1) :: fieldNameRe_FindAllStringSubmatch m2.2 }.
Proof.
  - assert (Hspan : ∀ p s, (String.length (Strings.span p s).2 ≤ String.length s)%nat).
    { intros p s. induction s as [|a s IH]; simpl; [lia|].
      destruct (p a); simpl; lia. }
    pose proof (Hspan (λ c, negb (Strings.is_upper c)) m1.2) as H2.
    pose proof (Hspan Strings.is_upper s') as H1.
    subst m1 m2. simpl in *. rewrite Hc in *. simpl in *. lia.
  - simpl. lia.
Qed.

(** The loop body of [defaultDBName]: the parts one match contributes. *)
Definition defaultDBName_parts (m : string * string) : list string :=
  let '(head, tail) := m in
  if bool_decide (1 < String.length head)%nat && negb (bool_decide (String.length tail = 0%nat)) then
    let i := (String.length head - 1)%nat in
    [Strings.ToLower (Strings.take i head);
     Strings.ToLower (Strings.drop i head) +:+ tail]
  else
    [Strings.ToLower head +:+ tail].

Definition defaultDBName (fieldName : string) : string :=
  let matches := fieldNameRe_FindAllStringSubmatch fieldName in
  let parts := concat (map defaultDBName_parts matches) in
  Strings.Join parts "_".

(** *** The tokenization as the specification words it

    Runs of [[A-Z]] each followed by bytes outside [[A-Z]]; a run longer than
    one byte with a non-empty tail gives its last byte to the next token; every
    token is lower-cased; the tokens are joined with an underscore.  The
    grouping is written here from right to left, one byte at a time. *)
Module NameSpec.

(** The bytes before the first run, which belong to no token, and the
    groups (run, tail) after. *)
Fixpoint scan (s : string) : string * list (string * string) :=
  match s with
  | "" => ("", [])
  | String c s' =>
      let '(pre, gs) := scan s' in
      if Strings.is_upper c then
        match pre, gs with
        | "", (run, tail) :: gs' => ("", (String c run, tail) :: gs')
        | _, _ => ("", (String c "", pre) :: gs)
        end
      else (String c pre, gs)
  end.

(** A run without its final byte, and that byte. *)
Fixpoint peel (run : string) : string * string :=
  match run with
  | "" => ("", "")
  | String c "" => ("", String c "")
  | String c r => (String c (peel r).1, (peel r).2)
  end.

Definition tokens (g : string * string) : list string :=
  let '(run, tail) := g in
  match run, tail with
  | String _ (String _ _), String _ _ => [(peel run).1; (peel run).2 +:+ tail]
  | _, _ => [run +:+ tail]
  end.

Definition column_name (fieldName : string) : string :=
  Strings.Join (map Strings.ToLower (concat (map tokens (scan fieldName).2))) "_".

End NameSpec.


(** ** Results and panics *)

(** What a Go call yields: its results, or a run-time panic. *)
Inductive outcome (A : Type) : Type :=
| Ok (a : A)
| Panic (reason : string).
Arguments Ok {A} a.
Arguments Panic {A} reason.

#[global] Instance outcome_ret : MRet outcome := λ A a, Ok a.
#[global] Instance outcome_bind : MBind outcome :=
  λ A B f x, match x with Ok a => f a | Panic r => Panic r end.

(** ** The run-time type descriptors of package reflect *)

Module Reflect.

Inductive Kind : Set :=
| Invalid | Bool | Int | Int8 | Int16 | Int32 | Int64
| Uint | Uint8 | Uint16 | Uint32 | Uint64 | Uintptr
| Float32 | Float64 | Complex64 | Complex128
| Array | Chan | Func | Interface | Map | Ptr | Slice | String | Struct
| UnsafePointer.

#[global] Instance Kind_eq_dec : EqDecision Kind.
Proof. solve_decision. Defined.

(** A struct tag, by its key/value pairs: [`db:"foo" json:"bar"`] is
    [[("db", "foo"); ("json", "bar")]]. *)
Definition StructTag := list (string * string).

(** [StructTag.Get]: the value of the first pair with that key, the empty
    string when there is none. *)
Fixpoint Tag_Get (tag : StructTag) (key : string) : string :=
  match tag with
  | [] => ""
  | (k, v) :: rest => if bool_decide (k = key) then v else Tag_Get rest key
  end.

(** Go types.  A defined type carries its name, the names of the methods
    declared for it with a value receiver and with a pointer receiver, and
    the type it is defined as; the methods promoted from embedded fields are
    not listed, [method_set] finds them. *)
Inductive type : Type :=
| Basic (k : Kind)
| PtrTo (elem : type)
| SliceOf (elem : type)
| MapOf (key elem : type)
| ChanOf (elem : type)
| InterfaceOf (methods : list string)
| StructOf (fields : list StructField)
| Named (name : string) (methods ptrMethods : list string) (underlying : type)
with StructField : Type :=
| mkStructField (Name : string) (Type_ : type) (Tag : StructTag) (Anonymous : bool).

Definition Name (f : StructField) : string :=
  match f with mkStructField n _ _ _ => n end.
Definition Type_ (f : StructField) : type :=
  match f with mkStructField _ t _ _ => t end.
Definition Tag (f : StructField) : StructTag :=
  match f with mkStructField _ _ g _ => g end.
Definition Anonymous (f : StructField) : bool :=
  match f with mkStructField _ _ _ a => a end.

Fixpoint underlying (t : type) : type :=
  match t with
  | Named _ _ _ u => underlying u
  | _ => t
  end.

(** [Type.Kind]. *)
Definition kind (t : type) : Kind :=
  match underlying t with
  | Basic k => k
  | PtrTo _ => Ptr
  | SliceOf _ => Slice
  | MapOf _ _ => Map
  | ChanOf _ => Chan
  | InterfaceOf _ => Interface
  | StructOf _ => Struct
  | Named _ _ _ _ => Invalid
  end.

(** The fields [Type.Field(0..NumField()-1)] of a type of kind [Struct]. *)
Definition fields (t : type) : list StructField :=
  match underlying t with
  | StructOf fs => fs
  | _ => []
  end.

(** Type identity; with [ignoreTags], struct tags are not compared. *)
Fixpoint identical (ignoreTags : bool) (a b : type) {struct a} : bool :=
  match a, b with
  | Basic k, Basic k' => bool_decide (k = k')
  | PtrTo a', PtrTo b' => identical ignoreTags a' b'
  | SliceOf a', SliceOf b' => identical ignoreTags a' b'
  | MapOf ka va, MapOf kb vb =>
      identical ignoreTags ka kb && identical ignoreTags va vb
  | ChanOf a', ChanOf b' => identical ignoreTags a' b'
  | InterfaceOf ms, InterfaceOf ms' => bool_decide (ms = ms')
  | StructOf fs, StructOf fs' =>
      (fix go (fs fs' : list StructField) {struct fs} : bool :=
         match fs, fs' with
         | [], [] => true
         | mkStructField n t g an :: r, mkStructField n' t' g' an' :: r' =>
             bool_decide (n = n') && bool_decide (an = an')
             && (ignoreTags || bool_decide (g = g'))
             && identical ignoreTags t t' && go r r'
         | _, _ => false
         end) fs fs'
  | Named n ms pms u, Named n' ms' pms' u' =>
      bool_decide (n = n') && bool_decide (ms = ms')
      && bool_decide (pms = pms') && identical ignoreTags u u'
  | _, _ => false
  end.

(** What a selector can name in a type: a field, or a method with a value
    receiver or with a pointer receiver. *)
Inductive member : Set := IsField | ValueMethod | PointerMethod.

Definition deeper (ms : list (string * nat * member))
  : list (string * nat * member) :=
  map (λ m, (m.1.1, S m.1.2, m.2)) ms.

(** Through an embedded pointer every method can be called. *)
Definition through_pointer (ms : list (string * nat * member))
  : list (string * nat * member) :=
  map (λ m, (m.1, match m.2 with PointerMethod => ValueMethod | k => k end)) ms.

(** The fields and methods of a type with the depth of each, as the
    language specification counts it: zero for what the type declares, one
    more for what an embedded field brings.  A defined type has the methods
    declared for it ([own]) and what the type it is defined as has of fields,
    of methods promoted from embedded fields, and of interface methods, but
    not the methods declared for that type. *)
Fixpoint members (own : bool) (t : type) {struct t}
  : list (string * nat * member) :=
  match t with
  | Named _ ms pms u =>
      (if own
       then map (λ m, (m, 0, ValueMethod)) ms
            ++ map (λ m, (m, 0, PointerMethod)) pms
       else [])
      ++ members false u
  | StructOf fs =>
      (fix go (fs : list StructField) {struct fs}
         : list (string * nat * member) :=
         match fs with
         | [] => []
         | mkStructField n ft _ an :: rest =>
             (n, 0, IsField)
             :: (if an then
                   match ft with
                   | PtrTo e => through_pointer (deeper (members true e))
                   | _ => deeper (members true ft)
                   end
                 else [])
             ++ go rest
         end) fs
  | InterfaceOf ms => map (λ m, (m, 0, ValueMethod)) ms
  | _ => []
  end.

(** The methods among [ms] that a selector denotes: those at the shallowest
    depth at which their name occurs, when the name occurs once there; with
    a pointer receiver only for an addressable operand. *)
Definition selected (addressable : bool) (ms : list (string * nat * member))
  : list string :=
  omap (λ m,
    let '(name, depth, k) := m in
    let same := filter (λ m', m'.1.1 = name) ms in
    if forallb (λ m', Nat.leb depth m'.1.2) same
       && Nat.eqb (length (filter (λ m', m'.1.2 = depth) same)) 1
       && match k with
          | IsField => false
          | ValueMethod => true
          | PointerMethod => addressable
          end
    then Some name else None) ms.

(** The method set of a type, by method names: of a pointer to a type that
    is neither a pointer nor an interface, the methods with either receiver;
    of another type, the methods with a value receiver. *)
Definition method_set (t : type) : list string :=
  match t with
  | PtrTo e =>
      match underlying e with
      | PtrTo _ | InterfaceOf _ => []
      | _ => selected true (members true e)
      end
  | _ => selected false (members true t)
  end.

(** [Type.Implements], for an interface type given by its method names. *)
Definition Implements (t : type) (iface : list string) : bool :=
  forallb (λ m, bool_decide (m ∈ method_set t)) iface.

Definition is_integer (k : Kind) : bool :=
  match k with
  | Int | Int8 | Int16 | Int32 | Int64
  | Uint | Uint8 | Uint16 | Uint32 | Uint64 | Uintptr => true
  | _ => false
  end.

Definition is_float (k : Kind) : bool :=
  match k with Float32 | Float64 => true | _ => false end.

Definition is_complex (k : Kind) : bool :=
  match k with Complex64 | Complex128 => true | _ => false end.

Definition is_byte_or_rune_slice (t : type) : bool :=
  match underlying t with
  | SliceOf e => bool_decide (kind e = Uint8) || bool_decide (kind e = Int32)
  | _ => false
  end.

(** [Type.ConvertibleTo].  Package reflect is not part of the repository:
    this follows the conversion rules of the Go language specification for
    the types above (identical underlying types with tags ignored, unnamed
    pointers to such, numeric to numeric, complex to complex, integers and
    byte or rune slices to strings and back, and values to the interfaces
    they implement). *)
Definition ConvertibleTo (v t : type) : bool :=
  identical true (underlying v) (underlying t)
  || match v, t with
     | PtrTo v', PtrTo t' => identical true (underlying v') (underlying t')
     | _, _ => false
     end
  || ((is_integer (kind v) || is_float (kind v))
      && (is_integer (kind t) || is_float (kind t)))
  || (is_complex (kind v) && is_complex (kind t))
  || (bool_decide (kind t = String)
      && (is_integer (kind v) || is_byte_or_rune_slice v))
  || (bool_decide (kind v = String) && is_byte_or_rune_slice t)
  || match underlying t with
     | InterfaceOf ms => Implements v ms
     | _ => false
     end.

(** A [reflect.Value] for a variable inside the scan target: the zero
    Value, or the variable at a path of field names below the target, with
    its type.  Every such variable is addressable.  A [Guarded] variable was
    reached through an unexported field, so that [Value.Interface] refuses
    it; [sticky] tells whether one of these fields was not an embedded one,
    in which case the fields below are refused as well. *)
Inductive Value : Type :=
| Zero
| Place (path : list string) (typ : type)
| Guarded (sticky : bool) (path : list string) (typ : type).

(** An exported name starts with an upper-case letter.  The names are read
    as ASCII: a name that starts with a byte outside ASCII counts as
    unexported. *)
Definition is_exported (name : string) : bool :=
  match name with
  | String.String c _ => Strings.is_upper c
  | String.EmptyString => false
  end.

(** [Value.Field] as [FieldByName] reaches it, on a struct value that
    carries the sticky read-only flag or not: the flag is inherited, an
    unexported field sets it unless the field is embedded, and then only
    marks the field itself. *)
Definition Field (sticky : bool) (path : list string) (typ : type)
    (name : string) : outcome Value :=
  if bool_decide (kind typ = Struct) then
    match List.find (λ f, bool_decide (Name f = name)) (fields typ) with
    | Some f =>
        if is_exported (Name f) then
          if sticky then Ok (Guarded true (path ++ [name]) (Type_ f))
          else Ok (Place (path ++ [name]) (Type_ f))
        else
          Ok (Guarded (sticky || negb (Anonymous f)) (path ++ [name]) (Type_ f))
    | None => Ok Zero
    end
  else Panic "reflect: call of reflect.Value.FieldByName on non-struct Value".

(** [Value.FieldByName].  Panics on the zero Value and on a value that is
    not a struct.  The name is looked up among the struct's own fields, the
    first step of reflect's search; the search through the fields promoted
    from embedded structs is not modelled and gives the zero Value: the
    scanner only asks a struct for names that the schema builder met among
    that struct's own fields. *)
Definition FieldByName (v : Value) (name : string) : outcome Value :=
  match v with
  | Zero => Panic "reflect: call of reflect.Value.FieldByName on zero Value"
  | Place path typ => Field false path typ name
  | Guarded sticky path typ => Field sticky path typ name
  end.

End Reflect.

(** ** Values held by variables *)

(** The contents of a Go variable, as far as scanning is concerned. *)
#[warnings="-register-all"]
Inductive Data : Type :=
| DNil
| DBool (b : bool)
| DInt (n : Z)
| DString (s : string)
| DBytes (s : string)
| DMap (entries : list (string * Data))
| DStruct (fields : list (string * Data))
| DFloat64 (x : spec_float)
| DSlice (elems : list Data).

Module Store.

(** The field [name] of a struct value. *)
Definition field (d : Data) (name : string) : option Data :=
  match d with
  | DStruct fs => snd <$> List.find (λ kv, bool_decide (kv.1 = name)) fs
  | _ => None
  end.

(** The variable at [path] below [d]. *)
Fixpoint get (path : list string) (d : Data) : option Data :=
  match path with
  | [] => Some d
  | name :: path' => field d name ≫= get path'
  end.

(** The fields [fs] with [f] applied to the first one named [name]; [None]
    when there is none, or when [f] gives [None]. *)
Fixpoint update_field (name : string) (f : Data → option Data)
    (fs : list (string * Data)) : option (list (string * Data)) :=
  match fs with
  | [] => None
  | (k, d) :: rest =>
      if bool_decide (k = name)
      then (λ d', (k, d') :: rest) <$> f d
      else ((k, d) ::.) <$> update_field name f rest
  end.

(** Assignment to the variable at [path] below [d]; [None] when [d] has
    no such variable. *)
Fixpoint set (path : list string) (v : Data) (d : Data) : option Data :=
  match path with
  | [] => Some v
  | name :: path' =>
      match d with
      | DStruct fs => DStruct <$> update_field name (set path' v) fs
      | _ => None
      end
  end.

(** Two paths neither of which leads through the other. *)
Definition apart (p q : list string) : Prop :=
  ¬ p `prefix_of` q ∧ ¬ q `prefix_of` p.

(** The zero value of a type: what [reflect.New] allocates.  The zero values
    of the kinds [Data] has no constructor for ([float32] and complex
    numbers) are rendered as [DNil]. *)
Fixpoint zero (t : Reflect.type) : Data :=
  match t with
  | Reflect.Basic k =>
      if Reflect.is_integer k then DInt 0
      else if bool_decide (k = Reflect.Bool) then DBool false
      else if bool_decide (k = Reflect.String) then DString ""
      else if bool_decide (k = Reflect.Float64) then DFloat64 (S754_zero false)
      else DNil
  | Reflect.StructOf fs =>
      DStruct (map (λ f, match f with
                         | Reflect.mkStructField n t' _ _ => (n, zero t')
                         end) fs)
  | Reflect.Named _ _ _ u => zero u
  | _ => DNil
  end.

End Store.

(** ** Errors *)

(** The errors of the package, by the message each [fmt.Errorf] formats, and
    the errors a cursor reports, by their [Error()] text. *)
Inductive error : Type :=
| NotAStruct (k : Reflect.Kind)
    (* "argument is not a struct, actually is %v" *)
| DuplicateMapping (dbName : string) (structType : option Reflect.type)
    (* "duplicate mapping for %q on %v" *)
| UnsupportedField (fieldName : string) (fieldType : Reflect.type)
    (* "unsupported field: %v (type=%v)" *)
| NotConvertible (structType t : Reflect.type)
    (* "mapping type (%v) is not convertible to the scan target (%v)" *)
| ScanErrorOnIndex (index : Z) (message : string) (recv : option Reflect.type)
    (* "scan error on index %v: %v (recv: %v)" *)
| CursorError (text : string)
| RecordAsError (record : Data).

(** ** Mappers and their registry *)

(** What [Mapper.Receive] hands to [rows.Scan]: nothing (the slot of
    [make([]interface{}, n)] left untouched), the address of a variable of the
    target, or the address of a fresh variable with its type and contents. *)
Inductive receiver : Type :=
| RNil
| RAddr (path : list string) (typ : Reflect.type)
| RNew (typ : Reflect.type) (contents : Data).

(** [reflect.TypeOf] of a receiver; [None] is the nil type of a nil
    interface. *)
Definition receiver_TypeOf (r : receiver) : option Reflect.type :=
  match r with
  | RNil => None
  | RAddr _ typ => Some (Reflect.PtrTo typ)
  | RNew typ _ => Some (Reflect.PtrTo typ)
  end.

(** The interface [Mapper].  [Copy target scanned] is given the type and the
    contents of the variable [target] points to and the receiver after the
    scan, and yields the new contents of that variable. *)
Record Mapper : Type := {
  Accepts : Reflect.type → bool;
  Receive : Reflect.Value → outcome receiver;
  Copy : Reflect.type → Data → receiver → outcome Data;
}.

(** [var mappers []Mapper] is a parameter of everything that reads it;
    [RegisterMapper] yields its next value. *)
Definition RegisterMapper (mapper : Mapper) (mappers : list Mapper) : list Mapper :=
  [mapper] ++ mappers.

(** [field.Addr().Interface()]: [Interface] panics on a value reached
    through an unexported field. *)
Definition Addr_Interface (field : Reflect.Value) : outcome receiver :=
  match field with
  | Reflect.Zero => Panic "reflect: call of reflect.Value.Addr on zero Value"
  | Reflect.Place path typ => Ok (RAddr path typ)
  | Reflect.Guarded _ _ _ =>
      Panic "reflect.Value.Interface: cannot return value obtained from unexported field or method"
  end.

Module Time.
(** [time.Location] and [time.Time]; of their methods none is named [Scan]
    or [Error], the two names this development asks method sets for. *)
Definition Location : Reflect.type :=
  Reflect.Named "time.Location" [] [] (Reflect.StructOf []).
Definition Time : Reflect.type :=
  Reflect.Named "time.Time" [] []
    (Reflect.StructOf
       [Reflect.mkStructField "wall" (Reflect.Basic Reflect.Uint64) [] false;
        Reflect.mkStructField "ext" (Reflect.Basic Reflect.Int64) [] false;
        Reflect.mkStructField "loc" (Reflect.PtrTo Location) [] false]).
End Time.

(** *** native.go *)

Definition nativeMapper_Accepts (fieldType : Reflect.type) : bool :=
  let kind :=
    if negb (bool_decide (Reflect.kind fieldType = Reflect.Ptr))
    then Reflect.kind fieldType
    else match Reflect.underlying fieldType with
         | Reflect.PtrTo elem => Reflect.kind elem
         | _ => Reflect.Invalid
         end in
  match kind with
  | Reflect.Int | Reflect.Int8 | Reflect.Int16 | Reflect.Int32 | Reflect.Int64 => true
  | Reflect.Uint | Reflect.Uint8 | Reflect.Uint16 | Reflect.Uint32 | Reflect.Uint64 => true
  | Reflect.Float32 | Reflect.Float64 | Reflect.Bool | Reflect.String => true
  | _ =>
      if Reflect.ConvertibleTo fieldType Time.Time then true
      else if Reflect.ConvertibleTo fieldType (Reflect.PtrTo Time.Time) then true
      else if Reflect.ConvertibleTo fieldType (Reflect.SliceOf (Reflect.Basic Reflect.Uint8)) then true
      else false
  end.

Definition nativeMapper : Mapper := {|
  Accepts := nativeMapper_Accepts;
  Receive field := Addr_Interface field;
  Copy _ target _ := Ok target;
|}.

(** [sql.Scanner], by its method. *)
Definition sql_Scanner : list string := ["Scan"].

Definition sqlScannerMapper : Mapper := {|
  Accepts fieldType := Reflect.Implements (Reflect.PtrTo fieldType) sql_Scanner;
  Receive field :=
    r ← Addr_Interface field;
    match receiver_TypeOf r with
    | Some t =>
        if Reflect.Implements t sql_Scanner then Ok r
        else Panic "interface conversion: missing method Scan"
    | None => Panic "interface conversion: interface is nil, not sql.Scanner"
    end;
  Copy _ target _ := Ok target;
|}.

(** *** json.go *)

Definition map_string_interface : Reflect.type :=
  Reflect.MapOf (Reflect.Basic Reflect.String) (Reflect.InterfaceOf []).

(** [type jsonScanner map[string]interface{}], with [Value] declared on the
    type and [Scan] on its pointer. *)
Definition jsonScanner : Reflect.type :=
  Reflect.Named "dbmap.jsonScanner" ["Value"] ["Scan"] map_string_interface.

(** [Value.Set] accepts a value assignable to the variable's type: of an
    identical type, or of a type with an identical underlying type when one
    of the two is not a defined type. *)
Definition AssignableTo (v t : Reflect.type) : bool :=
  Reflect.identical false v t
  || (Reflect.identical false (Reflect.underlying v) (Reflect.underlying t)
      && (match v with Reflect.Named _ _ _ _ => false | _ => true end
          || match t with Reflect.Named _ _ _ _ => false | _ => true end))
  || match Reflect.underlying t with
     | Reflect.InterfaceOf ms => Reflect.Implements v ms
     | _ => false
     end.

Definition jsonMapper : Mapper := {|
  Accepts fieldType := Reflect.ConvertibleTo fieldType map_string_interface;
  Receive _ := Ok (RNew jsonScanner (DMap []));
  Copy typ _ scanned :=
    match scanned with
    | RNew t contents =>
        if Reflect.identical false t jsonScanner then
          if AssignableTo jsonScanner typ then Ok contents
          else Panic "reflect.Set: value of type dbmap.jsonScanner is not assignable"
        else Panic "interface conversion: interface {} is not *dbmap.jsonScanner"
    | _ => Panic "interface conversion: interface {} is not *dbmap.jsonScanner"
    end;
|}.

(** The registry once the [init] functions of json.go and native.go have
    run, in the order of the file names. *)
Definition init_mappers : list Mapper :=
  RegisterMapper sqlScannerMapper
    (RegisterMapper nativeMapper
       (RegisterMapper jsonMapper [])).

(** ** The mapping and its construction *)

(** A nesting resolver: from the target struct to the struct a column is a
    member of. *)
Definition nesting : Type := Reflect.Value → outcome Reflect.Value.

(** [type Mapping struct]; the zero [Mapping{}] has a nil type and nil maps. *)
Record Mapping : Type := {
  structType : option Reflect.type;
  dbToStruct : gmap string string;
  mapping : gmap string Mapper;
  scanNesting : gmap string nesting;
}.

Definition zero_Mapping : Mapping :=
  {| structType := None; dbToStruct := ∅; mapping := ∅; scanNesting := ∅ |}.

(** [for _, mapper := range mappers { if mapper.Accepts(field.Type) ... }]:
    the first mapper of the registry that accepts the type. *)
Fixpoint first_accepting (mappers : list Mapper) (fieldType : Reflect.type)
  : option Mapper :=
  match mappers with
  | [] => None
  | mapper :: rest =>
      if Accepts mapper fieldType then Some mapper
      else first_accepting rest fieldType
  end.

(** The statements of [mapStruct]'s loop that follow the handling of the tag:
    the duplicate check, the two assignments and the choice of a mapper.
    Yields the mapping as it stands after the field, and the error returned
    from inside the loop if any. *)
Definition mapStruct_assign (mappers : list Mapper) (this : Mapping)
    (field : Reflect.StructField) (nest : nesting) (dbName : string)
  : Mapping * option error :=
  match dbToStruct this !! dbName with
  | Some _ => (this, Some (DuplicateMapping dbName (structType this)))
  | None =>
      let this1 :=
        {| structType := structType this;
           dbToStruct := <[dbName := Reflect.Name field]> (dbToStruct this);
           mapping := mapping this;
           scanNesting := <[Reflect.Name field := nest]> (scanNesting this) |} in
      match first_accepting mappers (Reflect.Type_ field) with
      | Some mapper =>
          ({| structType := structType this1;
              dbToStruct := dbToStruct this1;
              mapping := <[Reflect.Name field := mapper]> (mapping this1);
              scanNesting := scanNesting this1 |}, None)
      | None =>
          (this1, Some (UnsupportedField (Reflect.Name field) (Reflect.Type_ field)))
      end
  end.

(** The loop of [mapStruct] over the fields of a struct type, with the
    recursive call [mapping.mapStruct(field.Type, ...)] as [rec].  The receiver
    [*Mapping] is updated in place in Go: it is passed in and returned, also
    when an error is returned.  The error of the recursive call is dropped, as
    the call statement drops it. *)
Definition mapStruct_loop (mappers : list Mapper)
    (rec : Reflect.type → nesting → Mapping → Mapping * option error)
  : list Reflect.StructField → nesting → Mapping → Mapping * option error :=
  fix loop fields nest this :=
    match fields with
    | [] => (this, None)
    | field :: rest =>
        let dbName := Reflect.Tag_Get (Reflect.Tag field) "db" in
        if bool_decide (dbName = "-") then
          loop rest nest this
        else if bool_decide (dbName = "")
                && Reflect.Anonymous field
                && bool_decide (Reflect.kind (Reflect.Type_ field) = Reflect.Struct) then
          let this' :=
            (rec (Reflect.Type_ field)
                 (λ s, nest s ≫= λ v, Reflect.FieldByName v (Reflect.Name field))
                 this).1 in
          loop rest nest this'
        else
          let dbName :=
            if bool_decide (dbName = "") then defaultDBName (Reflect.Name field)
            else dbName in
          match mapStruct_assign mappers this field nest dbName with
          | (this', None) => loop rest nest this'
          | (this', Some err) => (this', Some err)
          end
    end.

(** [func (mapping *Mapping) mapStruct(structType, nesting) error].  Both
    callers pass a type of kind [Struct]; on any other, [NumField] panics and
    no field is visited. *)
Fixpoint mapStruct (mappers : list Mapper) (structType : Reflect.type)
    (nest : nesting) (this : Mapping) {struct structType} : Mapping * option error :=
  match structType with
  | Reflect.StructOf fields =>
      mapStruct_loop mappers (mapStruct mappers) fields nest this
  | Reflect.Named _ _ _ u => mapStruct mappers u nest this
  | _ => (this, None)
  end.

Definition noNesting : nesting := λ s, Ok s.

(** [StructMapping(struc)], given [reflect.TypeOf(struc)]. *)
Definition StructMapping (mappers : list Mapper) (structType : Reflect.type)
  : Mapping * option error :=
  if negb (bool_decide (Reflect.kind structType = Reflect.Struct)) then
    (zero_Mapping, Some (NotAStruct (Reflect.kind structType)))
  else
    let mapping0 :=
      {| structType := Some structType; dbToStruct := ∅; mapping := ∅;
         scanNesting := ∅ |} in
    match mapStruct mappers structType noNesting mapping0 with
    | (_, Some err) => (zero_Mapping, Some err)
    | (mapping1, None) => (mapping1, None)
    end.

(** ** Rows and cursors *)

(** What [Scan(dest...)] is given for one destination: nil, or the type of
    the pointer and the contents of the variable it points to. *)
Definition dest : Type := option (Reflect.type * Data).

(** How a call of [Scan(dest...)] ends: it returns nil, or an error, given
    by its [Error()] text, or it panics. *)
Inductive scan_verdict : Type :=
| ScanDone
| ScanFailed (text : string)
| ScanPanicked (reason : string).

(** What a call of [Scan(dest...)] does: it stores values through some of
    the destinations (per destination, the value stored last, if any), then
    ends.  [Scan] reaches the target only through the pointers it is
    handed. *)
Definition scan_result : Type := list (option Data) * scan_verdict.

(** [type Row interface], over the state [R] of its implementation. *)
Class Row (R : Type) : Type := {
  Scan : R → list dest → scan_result * R;
}.

(** [type Rows interface]; errors are given by their text. *)
Class Rows (R : Type) : Type := {
  Rows_Row :: Row R;
  Close : R → option string * R;
  Columns : R → (list string + string) * R;
  Err : R → option string * R;
  Next : R → bool * R;
}.

(** ** Scanning one row *)

(** [rowScanIndexRe], the compiled pattern "index (\d+): (.+)$", through
    [FindStringSubmatch]: the two groups of the leftmost match.  At a start
    position the match is forced: the word and a space, the longest run of
    digits, a colon and a space, then every remaining byte up to the end of
    the text, of which there is at least one and none is a line feed (the dot
    does not match it, and the dollar only matches at the end of the text). *)
Module RowScanIndexRe.

Fixpoint strip_prefix (prefix s : string) : option string :=
  match prefix, s with
  | "", _ => Some s
  | String a prefix', String b s' =>
      if bool_decide (a = b) then strip_prefix prefix' s' else None
  | _, "" => None
  end.

Definition line_feed : ascii := ascii_of_nat 10.

Definition match_here (s : string) : option (string * string) :=
  r1 ← strip_prefix "index " s;
  let digits := Strings.span Strings.is_digit r1 in
  if bool_decide (digits.1 = "") then None else
  r3 ← strip_prefix ": " digits.2;
  if bool_decide (r3 = "") then None else
  if Strings.all_chars (λ c, negb (bool_decide (c = line_feed))) r3
  then Some (digits.1, r3) else None.

Fixpoint FindStringSubmatch (s : string) : option (string * string) :=
  match match_here s with
  | Some m => Some m
  | None =>
      match s with
      | "" => None
      | String _ s' => FindStringSubmatch s'
      end
  end.

End RowScanIndexRe.

Module Strconv.

Definition digit_value (c : ascii) : Z := Z.of_nat (nat_of_ascii c) - 48.

Fixpoint decimal (acc : Z) (s : string) : Z :=
  match s with
  | "" => acc
  | String c s' => decimal (10 * acc + digit_value c) s'
  end.

Definition maxInt : Z := 2 ^ 63 - 1.

(** An [int] after an arithmetic operation, where [int] has 64 bits. *)
Definition wrap_int (z : Z) : Z := (z + 2 ^ 63) mod 2 ^ 64 - 2 ^ 63.

(** The first result of [strconv.Atoi] on a string of digits, where [int]
    has 64 bits: the number, or the largest [int] when it does not fit (the
    error is the second result, which the caller drops); 0 on any other
    string. *)
Definition Atoi (s : string) : Z :=
  if Strings.all_chars Strings.is_digit s && negb (bool_decide (s = "")) then
    Z.min (decimal 0 s) maxInt
  else 0.

End Strconv.

(** The first loop of [ScanRow]: the receivers, one per name of [scanOrder],
    nil where the name is not a column of the mapping. *)
Fixpoint ScanRow_receivers (this : Mapping) (tarval : Reflect.Value)
    (scanOrder : list string) : outcome (list receiver) :=
  match scanOrder with
  | [] => Ok []
  | col :: rest =>
      r ← match dbToStruct this !! col with
          | None => Ok RNil
          | Some strucName =>
              match scanNesting this !! strucName with
              | None => Panic "invalid memory address or nil pointer dereference"
              | Some nest =>
                  s ← nest tarval;
                  field ← Reflect.FieldByName s strucName;
                  match mapping this !! strucName with
                  | None => Panic "invalid memory address or nil pointer dereference"
                  | Some mapper => Receive mapper field
                  end
              end
          end;
      rs ← ScanRow_receivers this tarval rest;
      Ok (r :: rs)
  end.

(** The destination [Scan] sees for a receiver. *)
Definition receiver_dest (target : Data) (r : receiver) : outcome dest :=
  match r with
  | RNil => Ok None
  | RAddr path typ =>
      match Store.get path target with
      | Some d => Ok (Some (Reflect.PtrTo typ, d))
      | None => Panic "the target has no such variable"
      end
  | RNew typ d => Ok (Some (Reflect.PtrTo typ, d))
  end.

Fixpoint receiver_dests (target : Data) (scan : list receiver) : outcome (list dest) :=
  match scan with
  | [] => Ok []
  | r :: rest =>
      d ← receiver_dest target r;
      ds ← receiver_dests target rest;
      Ok (d :: ds)
  end.

(** The stores of a call of [Scan], applied in the order of the
    destinations: into the target, or into the fresh variable of the
    receiver. *)
Fixpoint apply_writes (scan : list receiver) (writes : list (option Data))
    (target : Data) : outcome (list receiver * Data) :=
  match scan, writes with
  | r :: scan', Some v :: writes' =>
      match r with
      | RNil => Panic "invalid memory address or nil pointer dereference"
      | RAddr path typ =>
          match Store.set path v target with
          | Some target' =>
              '(rs, target'') ← apply_writes scan' writes' target';
              Ok (r :: rs, target'')
          | None => Panic "the target has no such variable"
          end
      | RNew typ _ =>
          '(rs, target') ← apply_writes scan' writes' target;
          Ok (RNew typ v :: rs, target')
      end
  | r :: scan', None :: writes' =>
      '(rs, target') ← apply_writes scan' writes' target;
      Ok (r :: rs, target')
  | _, _ => Ok (scan, target)
  end.

(** The second loop of [ScanRow]: [Copy] for every name of [scanOrder] that
    is a column of the mapping. *)
Fixpoint ScanRow_copy (this : Mapping) (tarval : Reflect.Value)
    (scanOrder : list string) (scan : list receiver) (target : Data)
  : outcome Data :=
  match scanOrder, scan with
  | col :: rest, r :: scan' =>
      target' ←
        match dbToStruct this !! col with
        | None => Ok target
        | Some strucName =>
            match scanNesting this !! strucName with
            | None => Panic "invalid memory address or nil pointer dereference"
            | Some nest =>
                s ← nest tarval;
                field ← Reflect.FieldByName s strucName;
                match field with
                | Reflect.Zero =>
                    Panic "reflect: call of reflect.Value.Addr on zero Value"
                | Reflect.Guarded _ _ _ =>
                    Panic "reflect.Value.Interface: cannot return value obtained from unexported field or method"
                | Reflect.Place path typ =>
                    match mapping this !! strucName with
                    | None => Panic "invalid memory address or nil pointer dereference"
                    | Some mapper =>
                        match Store.get path target with
                        | None => Panic "the target has no such variable"
                        | Some old =>
                            new ← Copy mapper typ old r;
                            match Store.set path new target with
                            | Some target' => Ok target'
                            | None => Panic "the target has no such variable"
                            end
                        end
                    end
                end
            end
        end;
      ScanRow_copy this tarval rest scan' target'
  | _, _ => Ok target
  end.

(** The error [ScanRow] returns when [row.Scan] failed with [text]. *)
Definition ScanRow_error (scan : list receiver) (text : string)
  : outcome (option error) :=
  match RowScanIndexRe.FindStringSubmatch text with
  | Some (m1, m2) =>
      let index := Strconv.Atoi m1 in
      match scan !! Z.to_nat index with
      | Some r => Ok (Some (ScanErrorOnIndex index m2 (receiver_TypeOf r)))
      | None => Panic "index out of range"
      end
  | None => Ok (Some (CursorError text))
  end.

(** [func (mapping Mapping) ScanRow(target, row, scanOrder...) error], where
    [target] points to a variable of type [t] that holds [target]: the
    result or panic, the contents of the variable afterwards, and the row
    afterwards. *)
Definition ScanRow {R} `{!Row R} (this : Mapping) (t : Reflect.type)
    (target : Data) (row : R) (scanOrder : list string)
  : outcome (option error) * Data * R :=
  match structType this with
  | None => (Panic "invalid memory address or nil pointer dereference", target, row)
  | Some structType =>
      if negb (Reflect.ConvertibleTo structType t) then
        (Ok (Some (NotConvertible structType t)), target, row)
      else
        let tarval := Reflect.Place [] t in
        match ScanRow_receivers this tarval scanOrder with
        | Panic p => (Panic p, target, row)
        | Ok scan =>
            match receiver_dests target scan with
            | Panic p => (Panic p, target, row)
            | Ok dests =>
                match Scan row dests with
                | ((writes, verdict), row') =>
                    match apply_writes scan writes target with
                    | Panic p => (Panic p, target, row')
                    | Ok (scan', target') =>
                        match verdict with
                        | ScanPanicked p => (Panic p, target', row')
                        | ScanFailed text =>
                            (ScanRow_error scan' text, target', row')
                        | ScanDone =>
                            match ScanRow_copy this tarval scanOrder scan' target' with
                            | Panic p => (Panic p, target', row')
                            | Ok target'' => (Ok None, target'', row')
                            end
                        end
                    end
                end
            end
        end
  end.

(** ** Consuming a cursor *)

(** [func (mapping Mapping) ScanOne(target, rows) (bool, error)]: the
    results or panic, the contents of the target afterwards, and the cursor
    afterwards.  The deferred [rows.Close()] runs on every way out. *)
Definition ScanOne {R} `{!Rows R} (this : Mapping) (t : Reflect.type)
    (target : Data) (rows : R) : outcome (bool * option error) * Data * R :=
  let '(res, target', rows') :=
    match Columns rows with
    | (inr err, rows1) => (Ok (false, Some (CursorError err)), target, rows1)
    | (inl cols, rows1) =>
        match Next rows1 with
        | (false, rows2) => (Ok (false, None), target, rows2)
        | (true, rows2) =>
            match ScanRow this t target rows2 cols with
            | (Panic p, target', rows3) => (Panic p, target', rows3)
            | (Ok (Some err), target', rows3) => (Ok (false, Some err), target', rows3)
            | (Ok None, target', rows3) => (Ok (true, None), target', rows3)
            end
        end
    end in
  (res, target', (Close rows').2).

(** What travels over the channel of [ScanStream]. *)
Inductive elem : Type :=
| ElemRecord (record : Data)
| ElemError (err : error).

(** The goroutine of [ScanStream] between two sends.  The channel has no
    buffer, so the goroutine stands at a send until the consumer receives;
    when it returns, the deferred calls close the cursor and the channel. *)
Inductive producer (R : Type) : Type :=
| Started (rows : R)
| Looping (cols : list string) (rows : R)
| Returning (rows : R)
| Finished (rows : R)
| Crashed (reason : string) (rows : R).
Arguments Started {R} rows.
Arguments Looping {R} cols rows.
Arguments Returning {R} rows.
Arguments Finished {R} rows.
Arguments Crashed {R} reason rows.

(** The loop [for rows.Next() { ... }] up to its next send, and the
    statements after it. *)
Definition ScanStream_loop {R} `{!Rows R} (this : Mapping) (cols : list string)
    (rows : R) : option elem * producer R :=
  match Next rows with
  | (true, rows1) =>
      match structType this with
      | None => (None, Crashed "reflect: New(nil)" (Close rows1).2)
      | Some structType =>
          match ScanRow this structType (Store.zero structType) rows1 cols with
          | (Panic p, _, rows2) => (None, Crashed p (Close rows2).2)
          | (Ok (Some err), _, rows2) => (Some (ElemError err), Returning rows2)
          | (Ok None, scan, rows2) => (Some (ElemRecord scan), Looping cols rows2)
          end
      end
  | (false, rows1) =>
      match Err rows1 with
      | (Some err, rows2) => (Some (ElemError (CursorError err)), Returning rows2)
      | (None, rows2) => (None, Finished (Close rows2).2)
      end
  end.

(** One receive from the channel of [ScanStream]: the element sent, or
    [None] when the channel is closed, and the goroutine afterwards. *)
Definition ScanStream_receive {R} `{!Rows R} (this : Mapping) (p : producer R)
  : option elem * producer R :=
  match p with
  | Started rows =>
      match Columns rows with
      | (inr err, rows1) => (Some (ElemError (CursorError err)), Returning rows1)
      | (inl cols, rows1) => ScanStream_loop this cols rows1
      end
  | Looping cols rows => ScanStream_loop this cols rows
  | Returning rows => (None, Finished (Close rows).2)
  | Finished rows => (None, Finished rows)
  | Crashed reason rows => (None, Crashed reason rows)
  end.

(** [func (mapping Mapping) ScanStream(rows) <-chan interface{}]. *)
Definition ScanStream {R} (this : Mapping) (rows : R) : producer R :=
  Started rows.

(** [error], by its method. *)
Definition error_interface : list string := ["Error"].

(** [elem.(error)] in [ScanAll]: an element is an error when it was sent as
    one, and also when it is a record of a type that has an [Error] method;
    otherwise it is a record to append. *)
Definition elem_as_error (this : Mapping) (e : elem) : error + Data :=
  match e with
  | ElemError err => inl err
  | ElemRecord record =>
      match structType this with
      | Some t =>
          if Reflect.Implements t error_interface
          then inl (RecordAsError record) else inr record
      | None => inr record
      end
  end.

(** The loop [for elem := range stream] of [ScanAll], for at most [fuel]
    receives: the results ([None] for the nil slice) and the goroutine as the
    return leaves it; [None] when [fuel] receives did not end the loop. *)
Fixpoint ScanAll_loop {R} `{!Rows R} (fuel : nat) (this : Mapping)
    (stream : producer R) (slice : list Data)
  : option (outcome (option (list Data) * option error) * producer R) :=
  match fuel with
  | O => None
  | S fuel' =>
      match ScanStream_receive this stream with
      | (None, Crashed reason rows) => Some (Panic reason, Crashed reason rows)
      | (None, stream') => Some (Ok (Some slice, None), stream')
      | (Some e, stream') =>
          match elem_as_error this e with
          | inl err => Some (Ok (None, Some err), stream')
          | inr record => ScanAll_loop fuel' this stream' (slice ++ [record])
          end
      end
  end.

(** [func (mapping Mapping) ScanAll(rows) (interface{}, error)]. *)
Definition ScanAll {R} `{!Rows R} (fuel : nat) (this : Mapping) (rows : R)
  : option (outcome (option (list Data) * option error) * producer R) :=
  match structType this with
  | None => Some (Panic "reflect: SliceOf(nil)", ScanStream this rows)
  | Some _ => ScanAll_loop fuel this (ScanStream this rows) []
  end.

(** ** testutil.go: rows and cursors held in memory *)

Module TestUtil.

(** An [interface{}] value: nil, or a dynamic type and contents. *)
Definition interface_value : Type := option (Reflect.type * Data).

(** The two calls of [TestRow.Scan] whose effect is decided outside the
    package.  [Value_Convert v t] is [reflect.ValueOf(v).Convert(t)]: the
    converted contents, or a panic.  [Scanner_Scan t d v] is [scanner.Scan(v)]
    on a destination of pointer type [t] whose variable holds [d], that is
    the [Scan] method of a field's own type, or [jsonScanner.Scan], which
    leaves the decoding to encoding/json: the contents of the variable
    afterwards (the error returned is dropped by the caller), or a panic. *)
Class Foreign : Type := {
  Value_Convert : interface_value → Reflect.type → outcome Data;
  Scanner_Scan : Reflect.type → Data → interface_value → outcome Data;
}.

(** [type TestRow map[string]interface{}]. *)
Definition TestRow : Type := gmap string interface_value.

(** [sort.Strings]: ascending, byte by byte. *)
Definition sort_Strings (l : list string) : list string :=
  merge_sort (λ a b, Is_true (String.leb a b)) l.

Definition Cols (row : TestRow) : list string :=
  sort_Strings (map_to_list row).*1.

Definition quote_char : ascii := ascii_of_nat 34.

(** The verb [%q] on a name that needs no escape: the name between
    double quotes. *)
Definition Quote (s : string) : string :=
  String quote_char (s +:+ String quote_char "").

(** The loop of [TestRow.Scan] over [row.Cols()], at [data[i:]]. *)
Fixpoint TestRow_Scan_loop `{!Foreign} (row : TestRow) (cols : list string)
    (data : list dest) : scan_result :=
  match cols with
  | [] => ([], ScanDone)
  | col :: cols' =>
      match data with
      | [] => ([], ScanPanicked "index out of range")
      | None :: _ =>
          ([], ScanFailed ("receiving column " +:+ Quote col +:+ " is nil"))
      | Some (ptr, contents) :: data' =>
          let value := default None (row !! col) in
          let stored :=
            if Reflect.Implements ptr sql_Scanner then
              Scanner_Scan ptr contents value
            else
              match ptr with
              | Reflect.PtrTo typ => Value_Convert value typ
              | _ => Panic "reflect.Value.Set using unaddressable value"
              end in
          match stored with
          | Panic p => ([], ScanPanicked p)
          | Ok v =>
              let '(writes, verdict) := TestRow_Scan_loop row cols' data' in
              (Some v :: writes, verdict)
          end
      end
  end.

Definition TestRow_Scan `{!Foreign} (row : TestRow) (data : list dest)
  : scan_result :=
  TestRow_Scan_loop row (Cols row) data.

#[global] Instance TestRow_Row `{!Foreign} : Row TestRow := {|
  Scan row data := (TestRow_Scan row data, row);
|}.

(** [type TestRows struct { Rows []TestRow; Current int }]. *)
Record TestRows : Type := {
  Rows_ : list TestRow;
  Current : Z;
}.

Definition TestRows_Scan `{!Foreign} (tr : TestRows) (data : list dest)
  : scan_result * TestRows :=
  if bool_decide (0 ≤ Current tr)%Z then
    match Rows_ tr !! Z.to_nat (Current tr) with
    | Some row => (TestRow_Scan row data, tr)
    | None => (([], ScanPanicked "index out of range"), tr)
    end
  else (([], ScanPanicked "index out of range"), tr).

#[global] Instance TestRows_Row `{!Foreign} : Row TestRows := {|
  Scan := TestRows_Scan;
|}.

#[global] Instance TestRows_Rows `{!Foreign} : Rows TestRows := {|
  Close tr := (None, tr);
  Columns tr :=
    match Rows_ tr with
    | row :: _ => (inl (Cols row), tr)
    | [] => (inl [], tr)
    end;
  Err tr := (None, tr);
  Next tr :=
    let tr' := {| Rows_ := Rows_ tr;
                  Current := Strconv.wrap_int (Current tr + 1) |} in
    (bool_decide (Current tr' < Z.of_nat (length (Rows_ tr')))%Z, tr');
|}.

End TestUtil.

(** ** Cursors for examples *)

Module Replay.

(** An implementation of [Rows] that answers as it is told: the result of
    [Columns], one result of [Scan] per row, the result of [Err], and a
    count of the calls of [Close]. *)
Record Cursor : Type := {
  columns : list string + string;
  pending : list scan_result;
  current : option scan_result;
  end_error : option string;
  closed : nat;
}.

Definition open (columns : list string + string) (rows : list scan_result)
    (end_error : option string) : Cursor :=
  {| columns := columns; pending := rows; current := None;
     end_error := end_error; closed := 0 |}.

#[global] Instance Cursor_Row : Row Cursor := {|
  Scan c _ :=
    match current c with
    | Some r => (r, c)
    | None => (([], ScanFailed "sql: Scan called without calling Next"), c)
    end;
|}.

#[global] Instance Cursor_Rows : Rows Cursor := {|
  Close c :=
    (None, {| columns := columns c; pending := pending c; current := current c;
              end_error := end_error c; closed := S (closed c) |});
  Columns c := (columns c, c);
  Err c := (end_error c, c);
  Next c :=
    match pending c with
    | [] =>
        (false, {| columns := columns c; pending := []; current := None;
                   end_error := end_error c; closed := closed c |})
    | r :: rest =>
        (true, {| columns := columns c; pending := rest; current := Some r;
                  end_error := end_error c; closed := closed c |})
    end;
|}.

End Replay.

(** The foreign calls of [TestRow.Scan] for the examples: a value converts to
    its own type unchanged; other conversions and the [Scan] methods of
    destinations are left out and stop the example. *)
Definition own_type_only : TestUtil.Foreign := {|
  TestUtil.Value_Convert v t :=
    match v with
    | Some (vt, d) =>
        if Reflect.identical false vt t then Ok d
        else Panic "conversion left out of the examples"
    | None => Panic "reflect: call of reflect.Value.Convert on zero Value"
    end;
  TestUtil.Scanner_Scan _ _ _ := Panic "Scan method left out of the examples";
|}.

(** ** Struct types for examples *)

Module Examples.

Definition int : Reflect.type := Reflect.Basic Reflect.Int.
Definition string_ : Reflect.type := Reflect.Basic Reflect.String.

(** [type MyEmbeddedStruct struct { Foo int `db:"foo"` }], as in
    [TestDuplicateMappingEmbedded]. *)
Definition MyEmbeddedStruct : Reflect.type :=
  Reflect.Named "MyEmbeddedStruct" [] []
    (Reflect.StructOf [Reflect.mkStructField "Foo" int [("db", "foo")] false]).

(** [type EmbeddedFirst struct { MyEmbeddedStruct; Bar int `db:"foo"` }]:
    the struct of [TestDuplicateMappingEmbedded]. *)
Definition EmbeddedFirst : Reflect.type :=
  Reflect.Named "EmbeddedFirst" [] []
    (Reflect.StructOf
       [Reflect.mkStructField "MyEmbeddedStruct" MyEmbeddedStruct [] true;
        Reflect.mkStructField "Bar" int [("db", "foo")] false]).

(** [type EmbeddedLast struct { Bar int `db:"foo"`; MyEmbeddedStruct }]:
    the same two fields in the other order. *)
Definition EmbeddedLast : Reflect.type :=
  Reflect.Named "EmbeddedLast" [] []
    (Reflect.StructOf
       [Reflect.mkStructField "Bar" int [("db", "foo")] false;
        Reflect.mkStructField "MyEmbeddedStruct" MyEmbeddedStruct [] true]).

(** [type Other struct { Baz int `db:"foo"` }] and
    [type TwoEmbedded struct { MyEmbeddedStruct; Other }]. *)
Definition Other : Reflect.type :=
  Reflect.Named "Other" [] []
    (Reflect.StructOf [Reflect.mkStructField "Baz" int [("db", "foo")] false]).

Definition TwoEmbedded : Reflect.type :=
  Reflect.Named "TwoEmbedded" [] []
    (Reflect.StructOf
       [Reflect.mkStructField "MyEmbeddedStruct" MyEmbeddedStruct [] true;
        Reflect.mkStructField "Other" Other [] true]).

(** [type Audit struct { Tags []string `db:"tags"` }] and
    [type User struct { Audit; Name string `db:"name"` }]: no registered
    mapper accepts [[]string]. *)
Definition Audit : Reflect.type :=
  Reflect.Named "Audit" [] []
    (Reflect.StructOf
       [Reflect.mkStructField "Tags" (Reflect.SliceOf string_)
          [("db", "tags")] false]).

Definition User : Reflect.type :=
  Reflect.Named "User" [] []
    (Reflect.StructOf
       [Reflect.mkStructField "Audit" Audit [] true;
        Reflect.mkStructField "Name" string_ [("db", "name")] false]).

(** [type Base struct { ID int `db:"base_id"` }] and
    [type Account struct { Base; ID int `db:"id"` }]: two fields named
    [ID], one of them reached through the embedded struct. *)
Definition Base : Reflect.type :=
  Reflect.Named "Base" [] []
    (Reflect.StructOf [Reflect.mkStructField "ID" int [("db", "base_id")] false]).

Definition Account : Reflect.type :=
  Reflect.Named "Account" [] []
    (Reflect.StructOf
       [Reflect.mkStructField "Base" Base [] true;
        Reflect.mkStructField "ID" int [("db", "id")] false]).

(** An [Account] with [Base.ID] 1 and [ID] 2. *)
Definition account : Data :=
  DStruct [("Base", DStruct [("ID", DInt 1)]); ("ID", DInt 2)].

(** [type Named struct { Foo string `db:"foo"` }]. *)
Definition Named : Reflect.type :=
  Reflect.Named "Named" [] []
    (Reflect.StructOf [Reflect.mkStructField "Foo" string_ [("db", "foo")] false]).

Definition named (foo : string) : Data := DStruct [("Foo", DString foo)].

(** [type Amount int] with a method [Scan] on its pointer: both
    [nativeMapper] and [sqlScannerMapper] accept it. *)
Definition Amount : Reflect.type := Reflect.Named "Amount" [] ["Scan"] int.

(** A cursor that reports the column [foo] and has no rows. *)
Definition no_rows : Replay.Cursor := Replay.open (inl ["foo"]) [] None.

(** A cursor of three rows of which the second fails to scan. *)
Definition second_row_fails : Replay.Cursor :=
  Replay.open (inl ["foo"])
    [([Some (DString "a")], ScanDone);
     ([], ScanFailed "boom");
     ([Some (DString "c")], ScanDone)]
    None.

(** A cursor on a row whose scan fails with a text that names index 7. *)
Definition names_index_7 : Replay.Cursor :=
  (Next (Replay.open (inl ["foo"]) [([], ScanFailed "index 7: boom")] None)).2.


(** [TestRow{"zzz": 7}] and [TestRow{"base_id": 7}]. *)
Definition zzz_row : TestUtil.TestRow := {[ "zzz" := Some (int, DInt 7) ]}.
Definition base_id_row : TestUtil.TestRow := {[ "base_id" := Some (int, DInt 7) ]}.

(** The mapping [StructMapping] builds once the [init] functions
    have run. *)
Definition schema (structType : Reflect.type) : Mapping :=
  (StructMapping init_mappers structType).1.

End Examples.

(** ** Cursors whose row K fails *)

(** From [rows] on, the rows before the [K]-th scan into a fresh record
    without error, and the [K]-th row is there and its scan returns [err];
    [rows'] is the cursor after that scan. *)
Inductive fails_at {R} `{!Rows R} (this : Mapping) (structType : Reflect.type)
    (cols : list string) : nat → R → error → R → Prop :=
| fails_at_first rows rows1 rows2 target err :
    Next rows = (true, rows1) →
    ScanRow this structType (Store.zero structType) rows1 cols
    = (Ok (Some err), target, rows2) →
    fails_at this structType cols 1 rows err rows2
| fails_at_later K rows rows1 rows2 record err rows' :
    Next rows = (true, rows1) →
    ScanRow this structType (Store.zero structType) rows1 cols
    = (Ok None, record, rows2) →
    fails_at this structType cols K rows2 err rows' →
    fails_at this structType cols (S K) rows err rows'.

(** ** How the schema builder treats a field *)

(** The field is an embedded struct without a column name: [mapStruct]
    calls itself on its type. *)
Definition recursed_into (field : Reflect.StructField) : bool :=
  bool_decide (Reflect.Tag_Get (Reflect.Tag field) "db" = "")
  && Reflect.Anonymous field
  && bool_decide (Reflect.kind (Reflect.Type_ field) = Reflect.Struct).

(** The column name [mapStruct] resolves for a field of the struct it walks:
    the name of the tag or the inferred one; none for a field marked "-" and
    for a field it recurses into. *)
Definition resolved_column (field : Reflect.StructField) : option string :=
  let dbName := Reflect.Tag_Get (Reflect.Tag field) "db" in
  if bool_decide (dbName = "-") then None
  else if recursed_into field then None
  else Some (if bool_decide (dbName = "") then defaultDBName (Reflect.Name field)
             else dbName).

(** The number of constructors of a type. *)
Fixpoint type_size (t : Reflect.type) : nat :=
  match t with
  | Reflect.StructOf fs =>
      S (list_sum (map (λ f, match f with
                             | Reflect.mkStructField _ t' _ _ => type_size t'
                             end) fs))
  | Reflect.Named _ _ _ u => S (type_size u)
  | Reflect.PtrTo e | Reflect.SliceOf e | Reflect.ChanOf e => S (type_size e)
  | Reflect.MapOf k e => S (type_size k + type_size e)
  | _ => 1
  end.

(** ** The variables a scan can write *)

(** The variable of the target that [ScanRow] resolves for a column: the
    field named by [dbToStruct] in the struct its nesting resolver finds. *)
Definition column_place (this : Mapping) (tarval : Reflect.Value)
    (col : string) : option (list string) :=
  strucName ← dbToStruct this !! col;
  nest ← scanNesting this !! strucName;
  match nest tarval ≫= λ s, Reflect.FieldByName s strucName with
  | Ok (Reflect.Place path _) => Some path
  | _ => None
  end.

(** A mapper whose receiver, when it is the address of a variable of the
    target, is the address of the field it was given. *)
Definition receives_in_place (mapper : Mapper) : Prop :=
  ∀ field r,
    Receive mapper field = Ok r →
    match r with
    | RAddr path typ => field = Reflect.Place path typ
    | _ => True
    end.

(** ** Consistency of a mapping *)

(** Every column leads to a field name with a nesting resolver. *)
Definition resolvers_present (m : Mapping) : Prop :=
  ∀ col name, dbToStruct m !! col = Some name → is_Some (scanNesting m !! name).

(** Every column leads to a field name with a mapper. *)
Definition mappers_present (m : Mapping) : Prop :=
  ∀ col name, dbToStruct m !! col = Some name → is_Some (mapping m !! name).

(** ** Sequences of registrations *)

(** The registry after the calls [RegisterMapper(m)] for the [m] of [calls],
    in that order, from the zero value of [var mappers []Mapper]. *)
Definition registered (calls : list Mapper) : list Mapper :=
  foldl (λ mappers mapper, RegisterMapper mapper mappers) [] calls.

(** The mapping once [mapStruct_assign] has chosen [mapper] for [field]. *)
Definition assigned (this : Mapping) (field : Reflect.StructField)
    (nest : nesting) (dbName : string) (mapper : Mapper) : Mapping :=
  {| structType := structType this;
     dbToStruct := <[dbName := Reflect.Name field]> (dbToStruct this);
     mapping := <[Reflect.Name field := mapper]> (mapping this);
     scanNesting := <[Reflect.Name field := nest]> (scanNesting this) |}.

(** ** The rest of the package *)

(** [func MustStructMapping(struc) Mapping]: [StructMapping], with a panic
    in place of the error. *)
Definition MustStructMapping (mappers : list Mapper) (structType : Reflect.type)
  : outcome Mapping :=
  match StructMapping mappers structType with
  | (_, Some err) => Panic "panic(err)"
  | (mapping, None) => Ok mapping
  end.

Module Json.

(** The errors of [jsonScanner.Scan]: its own, for a value that is neither a
    string nor a byte slice ("can not decode json from %#v"), and the one of
    the decoder, by its text. *)
Inductive scan_error : Type :=
| CannotDecode (value : TestUtil.interface_value)
| DecodeFailed (text : string).

Section Codec.

(** The codec of encoding/json, which is not part of the repository.
    [Decode text js] is [json.NewDecoder(in).Decode(js)] on a reader of
    [text]: the map [js] points to afterwards and the error.  [Encode js] is
    [json.NewEncoder(buf).Encode(js)]: the text written to the buffer, or the
    error. *)
Variable Decode : string → Data → Data * option string.
Variable Encode : Data → string + string.

(** [func (js *jsonScanner) Scan(value interface{}) error]: the map
    afterwards and the error.  The type switch takes the values whose
    dynamic type is [string] or [[]byte] itself. *)
Definition jsonScanner_Scan (js : Data) (value : TestUtil.interface_value)
  : Data * option scan_error :=
  match value with
  | Some (Reflect.Basic Reflect.String, DString v) =>
      let '(js', err) := Decode v js in (js', DecodeFailed <$> err)
  | Some (Reflect.SliceOf (Reflect.Basic Reflect.Uint8), DBytes v) =>
      let '(js', err) := Decode v js in (js', DecodeFailed <$> err)
  | _ => (js, Some (CannotDecode value))
  end.

(** [func (js jsonScanner) Value() (driver.Value, error)]; the buffer taken
    from the pool is empty, and is reset once its text has been copied. *)
Definition jsonScanner_Value (js : Data)
  : TestUtil.interface_value * option string :=
  match Encode js with
  | inr err => (None, Some err)
  | inl text => (Some (Reflect.Basic Reflect.String, DString text), None)
  end.

End Codec.

End Json.

(** ** Cursors whose rows all scan *)


(** The goroutine of [ScanStream] over a cursor that counts the calls of
    [Close]: [k] calls were made before the goroutine ends, one more once it
    has ended. *)
Definition closed_by (k : nat) (p : producer Replay.Cursor) : Prop :=
  match p with
  | Started rows | Looping _ rows | Returning rows => Replay.closed rows = k
  | Finished rows | Crashed _ rows => Replay.closed rows = S k
  end.

(** The kinds of the first switch of [nativeMapper.Accepts]. *)
Definition scalar_kind (k : Reflect.Kind) : bool :=
  match k with
  | Reflect.Int | Reflect.Int8 | Reflect.Int16 | Reflect.Int32 | Reflect.Int64
  | Reflect.Uint | Reflect.Uint8 | Reflect.Uint16 | Reflect.Uint32
  | Reflect.Uint64
  | Reflect.Float32 | Reflect.Float64 | Reflect.Bool | Reflect.String => true
  | _ => false
  end.

(** The columns [mapStruct] resolves for the fields of a struct, each with
    the name of its field, in the order of the fields. *)
Definition columns_of (fields : list Reflect.StructField)
  : list (string * string) :=
  omap (λ f, (λ col, (col, Reflect.Name f)) <$> resolved_column f) fields.

(** ** More inputs for examples *)

Module Samples.

(** [type MyStruct struct { Foo int `db:"foo"`; Bar int `db:"foo"` }], the
    struct of [TestDuplicateMapping]. *)
Definition TwoFoo : Reflect.type :=
  Reflect.Named "MyStruct" [] []
    (Reflect.StructOf
       [Reflect.mkStructField "Foo" Examples.int [("db", "foo")] false;
        Reflect.mkStructField "Bar" Examples.int [("db", "foo")] false]).

(** [type Hidden struct { Foo int `db:"-"`; Bar string }]. *)
Definition Hidden : Reflect.type :=
  Reflect.Named "Hidden" [] []
    (Reflect.StructOf
       [Reflect.mkStructField "Foo" Examples.int [("db", "-")] false;
        Reflect.mkStructField "Bar" Examples.string_ [] false]).

(** [type MyCustomJSONMap map[string]interface{}], as in
    [TestAliasedMappping], and [type Doc struct { JSON MyCustomJSONMap }]. *)
Definition MyCustomJSONMap : Reflect.type :=
  Reflect.Named "MyCustomJSONMap" [] [] map_string_interface.



(** A cursor of two rows that both scan. *)
Definition two_rows : Replay.Cursor :=
  Replay.open (inl ["foo"])
    [([Some (DString "a")], ScanDone); ([Some (DString "b")], ScanDone)]
    None.


(** A cursor whose [Columns] fails. *)
Definition no_columns : Replay.Cursor :=
  Replay.open (inr "sql: Rows are closed") [] None.

(** [type Failure struct { Foo string `db:"foo"` }] with a method
    [func (f Failure) Error() string]. *)
Definition Failure : Reflect.type :=
  Reflect.Named "Failure" ["Error"] []
    (Reflect.StructOf
       [Reflect.mkStructField "Foo" Examples.string_ [("db", "foo")] false]).

End Samples.

(** * Part II: properties *)

(** ** Strings *)

Section StringFacts.

Lemma append_cons c s t : String c s +:+ t = String c (s +:+ t).
Proof. reflexivity. Qed.

Lemma span_all p s : Strings.all_chars p (Strings.span p s).1 = true.
Proof.
  induction s as [|c s IH]; simpl; [done|].
  destruct (p c) eqn:E; simpl; [by rewrite E | done].
Qed.

Lemma ToLower_id s :
  Strings.all_chars (λ c, negb (Strings.is_upper c)) s = true →
  Strings.ToLower s = s.
Proof.
  induction s as [|c s IH]; simpl; [done|].
  intros [Hc Hs]%andb_prop. rewrite IH by done.
  unfold Strings.lower_char. by destruct (Strings.is_upper c).
Qed.

Lemma ToLower_app s t :
  Strings.ToLower (s +:+ t) = Strings.ToLower s +:+ Strings.ToLower t.
Proof.
  induction s as [|c s IH]; [done|].
  rewrite append_cons. simpl. by rewrite IH.
Qed.

End StringFacts.

(** ** Column-name inference *)

Section DefaultDBName.

Let non_upper := λ c : ascii, negb (Strings.is_upper c).

Lemma FindAll_nil : fieldNameRe_FindAllStringSubmatch "" = [].
Proof. by simp fieldNameRe_FindAllStringSubmatch. Qed.

Lemma FindAll_skip c s :
  Strings.is_upper c = false →
  fieldNameRe_FindAllStringSubmatch (String c s)
  = fieldNameRe_FindAllStringSubmatch s.
Proof.
  intros Hc. simp fieldNameRe_FindAllStringSubmatch.
  generalize (inspect (Strings.is_upper c)). intros [b Hb].
  destruct b; [congruence|]. by simp fieldNameRe_FindAllStringSubmatch.
Qed.

Lemma FindAll_match c s :
  Strings.is_upper c = true →
  fieldNameRe_FindAllStringSubmatch (String c s)
  = (String c (Strings.span Strings.is_upper s).1,
     (Strings.span non_upper (Strings.span Strings.is_upper s).2).1)
    :: fieldNameRe_FindAllStringSubmatch
         (Strings.span non_upper (Strings.span Strings.is_upper s).2).2.
Proof.
  intros Hc. simp fieldNameRe_FindAllStringSubmatch.
  generalize (inspect (Strings.is_upper c)). intros [b Hb].
  destruct b; [|congruence]. simp fieldNameRe_FindAllStringSubmatch.
  simpl. by rewrite Hc.
Qed.

(** The search for the next match passes over bytes outside [[A-Z]]. *)
Lemma FindAll_skip_span s :
  fieldNameRe_FindAllStringSubmatch (Strings.span non_upper s).2
  = fieldNameRe_FindAllStringSubmatch s.
Proof.
  induction s as [|c s IH]; [done|].
  simpl. unfold non_upper at 1 2.
  destruct (Strings.is_upper c) eqn:Hc; simpl; [done|].
  by rewrite IH, FindAll_skip.
Qed.

(** The right-to-left grouping finds the matches of the pattern. *)
Lemma scan_FindAll s :
  NameSpec.scan s
  = ((Strings.span non_upper s).1, fieldNameRe_FindAllStringSubmatch s).
Proof.
  induction s as [|c s IH]; [by rewrite FindAll_nil|].
  cbn [NameSpec.scan Strings.span]. rewrite IH. clear IH.
  destruct (Strings.is_upper c) eqn:Hc.
  - rewrite (FindAll_match _ _ Hc).
    unfold non_upper. rewrite Hc. cbn [negb fst snd].
    destruct s as [|c' s]; [by rewrite FindAll_nil|].
    cbn [Strings.span].
    destruct (Strings.is_upper c') eqn:Hc'; cbn [negb fst snd].
    + by rewrite (FindAll_match _ _ Hc').
    + pose proof (FindAll_skip_span (String c' s)) as H.
      unfold non_upper in H. rewrite H.
      cbn [Strings.span]. by rewrite Hc'.
  - unfold non_upper. rewrite Hc. cbn [negb fst snd]. by rewrite FindAll_skip.
Qed.

Lemma scan_tails s :
  Forall (λ g, Strings.all_chars non_upper g.2 = true) (NameSpec.scan s).2.
Proof.
  induction s as [|c s IH]; [constructor|].
  cbn [NameSpec.scan].
  pose proof (scan_FindAll s) as Hs.
  destruct (NameSpec.scan s) as [pre gs]. simpl in IH.
  injection Hs as Hpre _.
  destruct (Strings.is_upper c); [|done].
  destruct pre as [|a pre].
  - destruct gs as [|[run tail] gs']; simpl.
    + by repeat constructor.
    + inversion IH; subst. by constructor.
  - simpl. constructor; [|done]. simpl snd. rewrite Hpre. apply span_all.
Qed.

Lemma peel_take_drop c run :
  NameSpec.peel (String c run)
  = (Strings.take (String.length run) (String c run),
     Strings.drop (String.length run) (String c run)).
Proof.
  revert c. induction run as [|c' run IH]; intros c; [done|].
  change (NameSpec.peel (String c (String c' run)))
    with (String c (NameSpec.peel (String c' run)).1,
          (NameSpec.peel (String c' run)).2).
  by rewrite IH.
Qed.

(** On a match of the pattern, the loop body of [defaultDBName] yields the
    lower-cased tokens of the specification. *)
Lemma parts_tokens g :
  Strings.all_chars non_upper g.2 = true →
  defaultDBName_parts g = map Strings.ToLower (NameSpec.tokens g).
Proof.
  destruct g as [head tail]. cbn [snd]. intros Htail.
  pose proof (ToLower_id _ Htail) as Hlow.
  unfold defaultDBName_parts, NameSpec.tokens.
  destruct head as [|c [|c' run]].
  - cbn [map]. by rewrite ToLower_app, Hlow.
  - cbn [map String.length]. rewrite ToLower_app, Hlow. by destruct tail.
  - destruct tail as [|a tail].
    + cbn [map]. by rewrite ToLower_app.
    + rewrite (peel_take_drop c (String c' run)). cbn [fst snd map String.length].
      rewrite bool_decide_true by lia. rewrite bool_decide_false by lia.
      cbn [andb negb].
      replace (S (S (String.length run)) - 1) with (S (String.length run)) by lia.
      by rewrite ToLower_app, Hlow.
Qed.

Lemma concat_parts_tokens gs :
  Forall (λ g, Strings.all_chars non_upper g.2 = true) gs →
  concat (map defaultDBName_parts gs)
  = map Strings.ToLower (concat (map NameSpec.tokens gs)).
Proof.
  induction 1 as [|g gs Hg _ IH]; [done|].
  simpl. by rewrite map_app, IH, parts_tokens.
Qed.

(** [defaultDBName] computes the tokenization of the specification. *)
Lemma defaultDBName_column_name fieldName :
  defaultDBName fieldName = NameSpec.column_name fieldName.
Proof.
  unfold defaultDBName, NameSpec.column_name.
  pose proof (scan_tails fieldName) as Ht.
  rewrite scan_FindAll in *. simpl in *.
  by rewrite concat_parts_tokens.
Qed.

End DefaultDBName.

(** C4. Column-name inference from a field name is a function that computes
    the specified tokenization (runs of [[A-Z]] each followed by bytes outside
    [[A-Z]]; a run longer than one byte with a non-empty tail gives its last
    byte to the next token; every token lower-cased; tokens joined by an
    underscore), and it maps Foo to foo, FooBar to foo_bar, FooBarBaz to
    foo_bar_baz, JSON to json, JSONThing to json_thing, FooJSONThing to
    foo_json_thing and FooXBar to foo_x_bar. *)
Theorem defaultDBName_tokenization :
  (∀ fieldName, defaultDBName fieldName = NameSpec.column_name fieldName)
  ∧ defaultDBName "Foo" = "foo"
  ∧ defaultDBName "FooBar" = "foo_bar"
  ∧ defaultDBName "FooBarBaz" = "foo_bar_baz"
  ∧ defaultDBName "JSON" = "json"
  ∧ defaultDBName "JSONThing" = "json_thing"
  ∧ defaultDBName "FooJSONThing" = "foo_json_thing"
  ∧ defaultDBName "FooXBar" = "foo_x_bar".
Proof.
  split; [apply defaultDBName_column_name|].
  repeat split; vm_compute; reflexivity.
Qed.

(** ** The registry *)

Section Registry.

Lemma registered_rev calls : registered calls = rev calls.
Proof.
  unfold registered. rewrite <- (app_nil_r (rev calls)).
  generalize (@nil Mapper) as acc.
  induction calls as [|m calls IH]; intros acc; [done|].
  simpl. rewrite IH. unfold RegisterMapper. by rewrite <- app_assoc.
Qed.

Lemma first_accepting_app mappers mappers' fieldType :
  Forall (λ m, Accepts m fieldType = false) mappers →
  first_accepting (mappers ++ mappers') fieldType
  = first_accepting mappers' fieldType.
Proof.
  induction 1 as [|m mappers Hm _ IH]; [done|].
  simpl. by rewrite Hm.
Qed.

(** The last acceptor of a list: the list splits around it. *)
Lemma last_acceptor (calls : list Mapper) fieldType :
  Exists (λ m, Accepts m fieldType = true) calls →
  ∃ earlier chosen later,
    calls = earlier ++ chosen :: later
    ∧ Accepts chosen fieldType = true
    ∧ Forall (λ m, Accepts m fieldType = false) later.
Proof.
  induction calls as [|m calls IH]; intros Hex; [by inversion Hex|].
  destruct (decide (Exists (λ m, Accepts m fieldType = true) calls)) as [Hc|Hc].
  - destruct (IH Hc) as (earlier & chosen & later & -> & Hacc & Hlater).
    by exists (m :: earlier), chosen, later.
  - apply not_Exists_Forall in Hc; [|intros y; apply _].
    exists [], m, calls. split; [done|]. split.
    + inversion Hex as [? ? Hm|? ? Hm]; [done|].
      apply Exists_exists in Hm as (y & Hy & Hay).
      rewrite Forall_forall in Hc. by destruct (Hc y Hy).
    + eapply Forall_impl; [exact Hc|]. simpl. intros y Hy.
      by destruct (Accepts y fieldType).
Qed.

End Registry.

(** C5. For every sequence of [RegisterMapper] calls and every field type
    that at least one registered mapper accepts, the mapper the schema builder
    assigns to a field of that type is the most recently registered mapper
    that accepts the type: the registry is searched from the latest
    registration to the earliest and the first acceptor wins.  The choice is a
    function of the sequence of calls. *)
Theorem latest_registered_acceptor_wins
    (calls : list Mapper) (fieldType : Reflect.type) :
  Exists (λ m, Accepts m fieldType = true) calls →
  ∃ earlier chosen later,
    calls = earlier ++ chosen :: later
    ∧ Accepts chosen fieldType = true
    ∧ Forall (λ m, Accepts m fieldType = false) later
    ∧ first_accepting (registered calls) fieldType = Some chosen
    ∧ (∀ this field nest dbName,
         Reflect.Type_ field = fieldType →
         dbToStruct this !! dbName = None →
         mapStruct_assign (registered calls) this field nest dbName
         = (assigned this field nest dbName chosen, None))
    ∧ (∀ name column,
         column ≠ "-" → column ≠ "" →
         let structType :=
           Reflect.StructOf
             [Reflect.mkStructField name fieldType [("db", column)] false] in
         ∃ schema,
           StructMapping (registered calls) structType = (schema, None)
           ∧ dbToStruct schema !! column = Some name
           ∧ mapping schema !! name = Some chosen).
Proof.
  intros Hex.
  destruct (last_acceptor calls fieldType Hex)
    as (earlier & chosen & later & -> & Hacc & Hlater).
  exists earlier, chosen, later.
  assert (Hfirst : first_accepting (registered (earlier ++ chosen :: later))
                     fieldType = Some chosen).
  { rewrite registered_rev, rev_app_distr. simpl. rewrite <- app_assoc.
    rewrite first_accepting_app.
    - simpl. by rewrite Hacc.
    - rewrite Forall_forall in *. intros x Hx. apply Hlater.
      by apply list_elem_of_In, in_rev, list_elem_of_In. }
  repeat split; try done.
  - intros this field nest dbName <- Hfree.
    unfold mapStruct_assign. by rewrite Hfree, Hfirst.
  - intros name column Hdash Hempty structType.
    eexists. unfold StructMapping. simpl.
    rewrite (bool_decide_false (column = "-")) by done.
    rewrite (bool_decide_false (column = "")) by done. simpl.
    unfold mapStruct_assign. simpl. rewrite lookup_empty, Hfirst. simpl.
    split; [reflexivity|]. cbn. split; by rewrite lookup_insert_eq.
Qed.

Lemma latest_registered_acceptor_wins_witness :
  Exists (λ m, Accepts m Examples.Amount = true)
    [jsonMapper; nativeMapper; sqlScannerMapper]
  ∧ ∃ earlier chosen later,
      [jsonMapper; nativeMapper; sqlScannerMapper] = earlier ++ chosen :: later
      ∧ Accepts chosen Examples.Amount = true
      ∧ Forall (λ m, Accepts m Examples.Amount = false) later
      ∧ first_accepting (registered [jsonMapper; nativeMapper; sqlScannerMapper])
          Examples.Amount = Some chosen.
Proof.
  assert (Hex : Exists (λ m, Accepts m Examples.Amount = true)
                  [jsonMapper; nativeMapper; sqlScannerMapper]).
  { apply Exists_cons_tl, Exists_cons_hd. reflexivity. }
  split; [exact Hex|].
  destruct (latest_registered_acceptor_wins
              [jsonMapper; nativeMapper; sqlScannerMapper] Examples.Amount Hex)
    as (earlier & chosen & later & Hsplit & Hacc & Hlater & Hfirst & _).
  exists earlier, chosen, later. by repeat split.
Defined.

(** ** Invariants of the schema builder *)

Section MapStructInvariant.

Variable mappers : list Mapper.

(** A relation between the mapping before and after that every assignment
    of the loop respects. *)
Variable I : Mapping → Mapping → Prop.
Hypothesis I_refl : ∀ m, I m m.
Hypothesis I_trans : ∀ a b c, I a b → I b c → I a c.
Hypothesis I_assign :
  ∀ this field nest dbName,
    I this (mapStruct_assign mappers this field nest dbName).1.

Lemma mapStruct_loop_respects rec fields :
  Forall (λ f, ∀ nest this, I this (rec (Reflect.Type_ f) nest this).1) fields →
  ∀ nest this, I this (mapStruct_loop mappers rec fields nest this).1.
Proof.
  induction 1 as [|field rest Hrec _ IH]; intros nest this; [apply I_refl|].
  cbn [mapStruct_loop].
  case_bool_decide; [apply IH|].
  destruct (_ && _ && _).
  - eapply I_trans; [apply Hrec | apply IH].
  - pose proof (I_assign this field nest
                  (if bool_decide (Reflect.Tag_Get (Reflect.Tag field) "db" = "")
                   then defaultDBName (Reflect.Name field)
                   else Reflect.Tag_Get (Reflect.Tag field) "db")) as Ha.
    destruct (mapStruct_assign _ _ _ _ _) as [this' [err|]]; [done|].
    eapply I_trans; [exact Ha | apply IH].
Qed.

Lemma type_size_field f fs :
  f ∈ fs → (type_size (Reflect.Type_ f) < type_size (Reflect.StructOf fs))%nat.
Proof.
  intros Hf. cbn [type_size]. apply Nat.lt_succ_r.
  induction Hf as [f fs|f g fs _ IH]; destruct f; simpl in *; lia.
Qed.

Lemma mapStruct_respects t :
  ∀ nest this, I this (mapStruct mappers t nest this).1.
Proof.
  remember (type_size t) as n eqn:Hn. revert t Hn.
  induction n as [n IH] using lt_wf_ind. intros t ->.
  destruct t; intros nest this; try apply I_refl.
  - cbn [mapStruct]. apply mapStruct_loop_respects.
    apply Forall_forall. intros f Hf nest' this'.
    eapply IH; [|reflexivity]. by apply type_size_field.
  - cbn [mapStruct]. eapply IH; [|reflexivity]. simpl. lia.
Qed.

End MapStructInvariant.

Section SchemaFacts.

Variable mappers : list Mapper.

(** Columns are only added, never changed. *)
Lemma mapStruct_assign_dbToStruct this field nest dbName :
  dbToStruct this ⊆ dbToStruct (mapStruct_assign mappers this field nest dbName).1.
Proof.
  unfold mapStruct_assign.
  destruct (dbToStruct this !! dbName) eqn:Hfree; [done|].
  destruct (first_accepting _ _); simpl; by apply insert_subseteq.
Qed.

Lemma mapStruct_loop_dbToStruct fields nest this :
  dbToStruct this
  ⊆ dbToStruct (mapStruct_loop mappers (mapStruct mappers) fields nest this).1.
Proof.
  apply (mapStruct_loop_respects mappers (λ a b, dbToStruct a ⊆ dbToStruct b)).
  - done.
  - intros a b c Hab Hbc. by trans (dbToStruct b).
  - apply mapStruct_assign_dbToStruct.
  - apply Forall_forall. intros f _.
    apply (mapStruct_respects mappers (λ a b, dbToStruct a ⊆ dbToStruct b)).
    + done.
    + intros a b c Hab Hbc. by trans (dbToStruct b).
    + apply mapStruct_assign_dbToStruct.
Qed.

Lemma mapStruct_assign_resolvers this field nest dbName :
  resolvers_present this →
  resolvers_present (mapStruct_assign mappers this field nest dbName).1.
Proof.
  unfold mapStruct_assign, resolvers_present. intros Hinv.
  destruct (dbToStruct this !! dbName) eqn:Hfree; [done|].
  assert (∀ col name,
            <[dbName := Reflect.Name field]> (dbToStruct this) !! col = Some name →
            is_Some (<[Reflect.Name field := nest]> (scanNesting this) !! name))
    as Hstep.
  { intros col name. rewrite lookup_insert. case_decide as Hcol.
    - intros [= <-]. rewrite lookup_insert_eq. eauto.
    - intros Hname%Hinv. rewrite lookup_insert. by case_decide. }
  by destruct (first_accepting _ _).
Qed.

(** The nesting-resolver half of the consistency of a mapping holds for
    every mapping the builder returns. *)
Lemma StructMapping_resolvers_present structType m :
  StructMapping mappers structType = (m, None) → resolvers_present m.
Proof.
  unfold StructMapping. case_bool_decide; simpl; [|done].
  destruct (mapStruct _ _ _ _) as [m1 [err|]] eqn:Hmap; [done|].
  intros [= <-].
  pose proof (mapStruct_respects mappers
                (λ a b, resolvers_present a → resolvers_present b)) as Hinv.
  specialize (Hinv (λ _ H, H) (λ a b c Hab Hbc Ha, Hbc (Hab Ha))
                mapStruct_assign_resolvers structType noNesting
                {| structType := Some structType; dbToStruct := ∅;
                   mapping := ∅; scanNesting := ∅ |}).
  rewrite Hmap in Hinv. apply Hinv. intros col name. simpl.
  by rewrite lookup_empty.
Qed.

Lemma mapStruct_of_struct t nest this :
  Reflect.kind t = Reflect.Struct →
  mapStruct mappers t nest this
  = mapStruct_loop mappers (mapStruct mappers) (Reflect.fields t) nest this.
Proof.
  induction t; done.
Qed.

Lemma mapStruct_loop_app rec fields fields' nest this :
  mapStruct_loop mappers rec (fields ++ fields') nest this
  = match mapStruct_loop mappers rec fields nest this with
    | (this', None) => mapStruct_loop mappers rec fields' nest this'
    | (this', Some err) => (this', Some err)
    end.
Proof.
  revert this. induction fields as [|field rest IH]; intros this; [done|].
  cbn [app mapStruct_loop].
  case_bool_decide; [apply IH|].
  destruct (_ && _ && _); [apply IH|].
  destruct (mapStruct_assign _ _ _ _ _) as [this' [err|]]; [done | apply IH].
Qed.

Lemma mapStruct_loop_resolved rec field rest nest this col :
  resolved_column field = Some col →
  mapStruct_loop mappers rec (field :: rest) nest this
  = match mapStruct_assign mappers this field nest col with
    | (this', None) => mapStruct_loop mappers rec rest nest this'
    | (this', Some err) => (this', Some err)
    end.
Proof.
  unfold resolved_column, recursed_into. cbn [mapStruct_loop].
  case_bool_decide; [done|].
  destruct (_ && _ && _); [done|]. by intros [= <-].
Qed.

Lemma mapStruct_assign_column this field nest col this' :
  mapStruct_assign mappers this field nest col = (this', None) →
  dbToStruct this' !! col = Some (Reflect.Name field)
  ∧ is_Some (mapping this' !! Reflect.Name field)
  ∧ (∀ name, is_Some (mapping this !! name) → is_Some (mapping this' !! name))
  ∧ (∀ col', col' ≠ col → dbToStruct this' !! col' = dbToStruct this !! col').
Proof.
  unfold mapStruct_assign.
  destruct (dbToStruct this !! col); [done|].
  destruct (first_accepting _ _) as [mapper|]; [|done].
  intros [= <-]. simpl. rewrite !lookup_insert_eq.
  split; [done|]. split; [eauto|]. split.
  - intros name Hname. rewrite lookup_insert. by case_decide.
  - intros col' Hcol. by rewrite lookup_insert_ne.
Qed.

Lemma mapStruct_assign_duplicate this field nest col :
  is_Some (dbToStruct this !! col) →
  mapStruct_assign mappers this field nest col
  = (this, Some (DuplicateMapping col (structType this))).
Proof. intros [name Hname]. unfold mapStruct_assign. by rewrite Hname. Qed.

(** Two fields of the struct handed to [StructMapping] that resolve to the
    same column: an error is returned, and the zero mapping with it. *)
Lemma StructMapping_top_level_duplicate structType before f1 between f2 after col :
  Reflect.kind structType = Reflect.Struct →
  Reflect.fields structType = before ++ f1 :: between ++ f2 :: after →
  resolved_column f1 = Some col →
  resolved_column f2 = Some col →
  ∃ err, StructMapping mappers structType = (zero_Mapping, Some err).
Proof.
  intros Hkind Hfields Hf1 Hf2. unfold StructMapping.
  rewrite bool_decide_true by done. cbn [negb].
  rewrite mapStruct_of_struct, Hfields, mapStruct_loop_app by done.
  destruct (mapStruct_loop _ _ before _ _) as [this0 [err|]]; [by eexists|].
  rewrite (mapStruct_loop_resolved _ _ _ _ _ col Hf1).
  destruct (mapStruct_assign _ this0 _ _ _) as [this1 [err|]] eqn:Ha1;
    [by eexists|].
  apply mapStruct_assign_column in Ha1 as (Hcol & _).
  rewrite mapStruct_loop_app.
  pose proof (mapStruct_loop_dbToStruct between noNesting this1) as Hsub.
  destruct (mapStruct_loop _ _ between _ _) as [this2 [err|]]; [by eexists|].
  rewrite (mapStruct_loop_resolved _ _ _ _ _ col Hf2).
  rewrite mapStruct_assign_duplicate; [by eexists|].
  simpl in Hsub. exists (Reflect.Name f1).
  by eapply lookup_weaken.
Qed.

(** Without embedded structs to recurse into, a loop that ends without
    error has given every column a mapper. *)
Lemma mapStruct_loop_flat rec fields nest this this' :
  Forall (λ f, recursed_into f = false) fields →
  mappers_present this →
  mapStruct_loop mappers rec fields nest this = (this', None) →
  mappers_present this'.
Proof.
  intros Hflat. revert this.
  induction Hflat as [|field rest Hfield _ IH]; intros this Hinv.
  - by intros [= <-].
  - cbn [mapStruct_loop]. fold (recursed_into field). rewrite Hfield.
    case_bool_decide; [by apply IH|].
    destruct (mapStruct_assign _ _ _ _ _) as [this1 [err|]] eqn:Ha; [done|].
    apply IH. apply mapStruct_assign_column in Ha as (Hcol & Hmap & Hkeep & Hother).
    intros col name Hname.
    destruct (decide (col = if bool_decide (Reflect.Tag_Get (Reflect.Tag field) "db" = "")
                            then defaultDBName (Reflect.Name field)
                            else Reflect.Tag_Get (Reflect.Tag field) "db"))
      as [->|Hne].
    + rewrite Hcol in Hname. by injection Hname as <-.
    + rewrite Hother in Hname by done. eauto.
Qed.

(** The consistency of a mapping holds for the mappings built from struct
    types without embedded structs to recurse into. *)
Lemma StructMapping_flat_consistent structType m :
  Forall (λ f, recursed_into f = false) (Reflect.fields structType) →
  StructMapping mappers structType = (m, None) →
  mappers_present m ∧ resolvers_present m.
Proof.
  intros Hflat Hm. split; [|by eapply StructMapping_resolvers_present].
  revert Hm. unfold StructMapping. case_bool_decide as Hkind; simpl; [|done].
  rewrite mapStruct_of_struct by done.
  destruct (mapStruct_loop _ _ _ _ _) as [m1 [err|]] eqn:Hloop; [done|].
  intros [= <-]. eapply mapStruct_loop_flat; [exact Hflat | | exact Hloop].
  intros col name. simpl. by rewrite lookup_empty.
Qed.

End SchemaFacts.

(** ** The schema builder on embedded structs *)

(** C1. A struct type with two fields that resolve to the same column name
    must be refused with a duplicate-column error, wherever the two fields
    are.  [mapStruct] drops the error of its recursive call: with the embedded
    struct first and the colliding field after it the duplicate is reported,
    but with the embedded struct last, or with both fields in embedded
    structs, [StructMapping] returns a nil error and a mapping in which the
    column stands for the first field only. *)
Theorem duplicate_inside_embedded_struct_is_dropped :
  (StructMapping init_mappers Examples.EmbeddedFirst).2
  = Some (DuplicateMapping "foo" (Some Examples.EmbeddedFirst))
  ∧ (StructMapping init_mappers Examples.EmbeddedLast).2 = None
  ∧ dbToStruct (StructMapping init_mappers Examples.EmbeddedLast).1 !! "foo"
    = Some "Bar"
  ∧ (StructMapping init_mappers Examples.TwoEmbedded).2 = None
  ∧ dbToStruct (StructMapping init_mappers Examples.TwoEmbedded).1 !! "foo"
    = Some "Foo".
Proof. repeat split; vm_compute; reflexivity. Qed.

(** C9. In a mapping returned with a nil error every column of [dbToStruct]
    should lead to a field name that has a mapper and a nesting resolver.
    [mapStruct] records the column and the resolver before it looks for a
    mapper, and its caller drops the unsupported-field error of an embedded
    struct: [StructMapping] returns a nil error for [User], whose column
    [tags] leads to the field [Tags] without a mapper, and [ScanRow] over that
    column calls [Receive] on a nil [Mapper]. *)
Theorem unsupported_field_in_embedded_struct_leaves_no_mapper :
  (StructMapping init_mappers Examples.User).2 = None
  ∧ dbToStruct (Examples.schema Examples.User) !! "tags" = Some "Tags"
  ∧ mapping (Examples.schema Examples.User) !! "Tags" = None
  ∧ is_Some (scanNesting (Examples.schema Examples.User) !! "Tags")
  ∧ ∀ R (HR : Row R) (target : Data) (row : R),
      ScanRow (Examples.schema Examples.User) Examples.User target row ["tags"]
      = (Panic "invalid memory address or nil pointer dereference", target, row).
Proof.
  split; [vm_compute; reflexivity|].
  split; [vm_compute; reflexivity|].
  split; [vm_compute; reflexivity|].
  split; [vm_compute; eauto|].
  intros R HR target row. vm_compute. reflexivity.
Qed.

(** ** Consuming a cursor *)

(** C6. For every cursor with zero rows whose column listing succeeds,
    [ScanOne] returns [(false, nil)], leaves the target as it was, and has
    closed the cursor when it returns. *)
Theorem ScanOne_empty_cursor {R} `{!Rows R} (this : Mapping)
    (t : Reflect.type) (target : Data) (rows rows1 rows2 : R)
    (cols : list string) :
  Columns rows = (inl cols, rows1) →
  Next rows1 = (false, rows2) →
  ScanOne this t target rows = (Ok (false, None), target, (Close rows2).2).
Proof.
  intros Hcols Hnext. unfold ScanOne. by rewrite Hcols, Hnext.
Qed.

Lemma ScanOne_empty_cursor_witness :
  Columns Examples.no_rows = (inl ["foo"], Examples.no_rows)
  ∧ Next Examples.no_rows = (false, Examples.no_rows)
  ∧ ScanOne (Examples.schema Examples.Named) Examples.Named
      (Examples.named "kept") Examples.no_rows
    = (Ok (false, None), Examples.named "kept",
       {| Replay.columns := inl ["foo"]; Replay.pending := [];
          Replay.current := None; Replay.end_error := None;
          Replay.closed := 1 |}).
Proof.
  split; [reflexivity|]. split; [reflexivity|].
  change (ScanOne (Examples.schema Examples.Named) Examples.Named
            (Examples.named "kept") Examples.no_rows
          = (Ok (false, None), Examples.named "kept",
             (Close Examples.no_rows).2)).
  apply (ScanOne_empty_cursor (Examples.schema Examples.Named) Examples.Named
           (Examples.named "kept") Examples.no_rows Examples.no_rows
           Examples.no_rows ["foo"]); reflexivity.
Defined.

Section ScanAll.

Context {R : Type} `{!Rows R}.
Variables (this : Mapping) (recordType : Reflect.type) (cols : list string).
Hypothesis Htype : structType this = Some recordType.

Lemma receive_started rows rows1 :
  Columns rows = (inl cols, rows1) →
  ScanStream_receive this (Started rows)
  = ScanStream_receive this (Looping cols rows1).
Proof. intros Hcols. simpl. by rewrite Hcols. Qed.

(** The loop of [ScanAll] from a row on, whatever it has gathered. *)
Lemma ScanAll_loop_fails_at K rows err rows' :
  fails_at this recordType cols K rows err rows' →
  ∀ fuel slice, (K ≤ fuel)%nat →
  ∃ err' stream',
    ScanAll_loop fuel this (Looping cols rows) slice
    = Some (Ok (None, Some err'), stream')
    ∧ (Reflect.Implements recordType error_interface = false →
       err' = err ∧ stream' = Returning rows').
Proof.
  induction 1 as [rows rows1 rows2 target err Hnext Hscan
                 |K rows rows1 rows2 record err rows' Hnext Hscan _ IH];
    intros [|fuel] slice Hfuel; try lia.
  - exists err, (Returning rows2). simpl.
    unfold ScanStream_loop. by rewrite Hnext, Htype, Hscan.
  - cbn -[Reflect.Implements]. unfold ScanStream_loop.
    rewrite Hnext, Htype, Hscan. cbn -[Reflect.Implements].
    rewrite Htype.
    destruct (Reflect.Implements recordType error_interface) eqn:Himpl.
    + by eexists _, _.
    + destruct (IH fuel (slice ++ [record])) as (err' & stream' & -> & Hres);
        [lia|]. by eexists _, _.
Qed.

End ScanAll.

(** C3. For every cursor in which the scan of row K fails (K at least 1,
    the rows before it scanning without error), [ScanAll] returns a non-nil
    error together with the nil result: never the K-1 rows scanned before the
    failure.  The error is the one of row K, unless the record type itself
    has an [Error] method, in which case the first record is taken for an
    error. *)
Theorem ScanAll_returns_no_partial_rows {R} `{!Rows R} (this : Mapping)
    (recordType : Reflect.type) (rows rows1 rowsK : R) (cols : list string)
    (K : nat) (err : error) :
  structType this = Some recordType →
  Columns rows = (inl cols, rows1) →
  fails_at this recordType cols K rows1 err rowsK →
  ∀ fuel, (K ≤ fuel)%nat →
  ∃ err' stream',
    ScanAll fuel this rows = Some (Ok (None, Some err'), stream')
    ∧ (Reflect.Implements recordType error_interface = false →
       err' = err ∧ stream' = Returning rowsK).
Proof.
  intros Htype Hcols Hfails fuel Hfuel.
  destruct (ScanAll_loop_fails_at this recordType cols Htype K rows1 err rowsK
              Hfails fuel [] Hfuel) as (err' & stream' & Hloop & Hres).
  exists err', stream'. split; [|done].
  unfold ScanAll, ScanStream. rewrite Htype.
  destruct fuel as [|fuel]; [by inversion Hfails; lia|].
  simpl in *. by rewrite Hcols.
Qed.

Lemma second_row_fails_at_2 :
  fails_at (Examples.schema Examples.Named) Examples.Named ["foo"] 2
    Examples.second_row_fails (CursorError "boom")
    (Next (Next Examples.second_row_fails).2).2.
Proof.
  eapply fails_at_later; [reflexivity | vm_compute; reflexivity |].
  eapply fails_at_first; [reflexivity | vm_compute; reflexivity].
Defined.

Lemma ScanAll_returns_no_partial_rows_witness :
  structType (Examples.schema Examples.Named) = Some Examples.Named
  ∧ Columns Examples.second_row_fails = (inl ["foo"], Examples.second_row_fails)
  ∧ (2 ≤ 5)%nat
  ∧ ∃ err' stream',
      ScanAll 5 (Examples.schema Examples.Named) Examples.second_row_fails
      = Some (Ok (None, Some err'), stream')
      ∧ (Reflect.Implements Examples.Named error_interface = false →
         err' = CursorError "boom"
         ∧ stream' = Returning (Next (Next Examples.second_row_fails).2).2).
Proof.
  split; [reflexivity|]. split; [reflexivity|]. split; [lia|].
  apply (ScanAll_returns_no_partial_rows (Examples.schema Examples.Named)
           Examples.Named Examples.second_row_fails Examples.second_row_fails
           (Next (Next Examples.second_row_fails).2).2 ["foo"] 2
           (CursorError "boom")).
  - reflexivity.
  - reflexivity.
  - exact second_row_fails_at_2.
  - lia.
Defined.

(** ** Errors of the scan primitive *)

Section ScanError.

Lemma strip_prefix_Some prefix s r :
  RowScanIndexRe.strip_prefix prefix s = Some r → s = prefix +:+ r.
Proof.
  revert s. induction prefix as [|a prefix IH]; intros s; simpl.
  - by intros [= ->].
  - destruct s as [|b s]; [done|].
    case_bool_decide; [|done]. intros ->%IH. by subst.
Qed.

Lemma span_append p s : (Strings.span p s).1 +:+ (Strings.span p s).2 = s.
Proof.
  induction s as [|c s IH]; simpl; [done|].
  destruct (p c); simpl; [by rewrite append_cons, IH | done].
Qed.

(** What a match of [rowScanIndexRe] says about the text. *)
Lemma FindStringSubmatch_Some text m1 m2 :
  RowScanIndexRe.FindStringSubmatch text = Some (m1, m2) →
  ∃ before,
    text = before +:+ "index " +:+ m1 +:+ ": " +:+ m2
    ∧ m1 ≠ "" ∧ Strings.all_chars Strings.is_digit m1 = true
    ∧ m2 ≠ ""
    ∧ Strings.all_chars
        (λ c, negb (bool_decide (c = RowScanIndexRe.line_feed))) m2 = true.
Proof.
  induction text as [|c text IH].
  - simpl. unfold RowScanIndexRe.match_here. simpl. done.
  - cbn [RowScanIndexRe.FindStringSubmatch].
    destruct (RowScanIndexRe.match_here (String c text)) as [m|] eqn:Hm.
    + intros [= ->]. exists "". unfold RowScanIndexRe.match_here in Hm.
      destruct (RowScanIndexRe.strip_prefix "index " (String c text))
        as [r1|] eqn:H1; [|done]. cbn [mbind option_bind] in Hm.
      set (digits := Strings.span Strings.is_digit r1) in *.
      case_bool_decide as Hd; [done|].
      destruct (RowScanIndexRe.strip_prefix ": " digits.2)
        as [r3|] eqn:H3; [|done]. cbn [mbind option_bind] in Hm.
      case_bool_decide as Hr; [done|].
      destruct (Strings.all_chars _ r3) eqn:Hlf; [|done].
      injection Hm as <- <-.
      apply strip_prefix_Some in H1, H3.
      split; [|by repeat split; try apply span_all].
      rewrite H1, <- H3. subst digits. rewrite span_append. reflexivity.
    + intros (before & -> & Hrest)%IH. by exists (String c before).
Qed.

(** A failure whose text does not match is passed on as it is. *)
Lemma ScanRow_error_unmatched scan text :
  RowScanIndexRe.FindStringSubmatch text = None →
  ScanRow_error scan text = Ok (Some (CursorError text)).
Proof. intros H. unfold ScanRow_error. by rewrite H. Qed.

(** A failure whose text names the index of a receiver is re-expressed
    with the index, the message and the type of that receiver. *)
Lemma ScanRow_error_matched scan text m1 m2 r :
  RowScanIndexRe.FindStringSubmatch text = Some (m1, m2) →
  scan !! Z.to_nat (Strconv.Atoi m1) = Some r →
  ScanRow_error scan text
  = Ok (Some (ScanErrorOnIndex (Strconv.Atoi m1) m2 (receiver_TypeOf r))).
Proof. intros H Hr. unfold ScanRow_error. by rewrite H, Hr. Qed.

(** A failure whose text names an index past the receivers panics. *)
Lemma ScanRow_error_out_of_range scan text m1 m2 :
  RowScanIndexRe.FindStringSubmatch text = Some (m1, m2) →
  (length scan ≤ Z.to_nat (Strconv.Atoi m1))%nat →
  ScanRow_error scan text = Panic "index out of range".
Proof.
  intros H Hr. unfold ScanRow_error. rewrite H.
  by rewrite (lookup_ge_None_2 scan _ Hr).
Qed.

End ScanError.

(** C7. When the scan primitive fails with a text that matches the
    pattern naming a placeholder index, [ScanRow] must return the re-expressed
    error, and the original error otherwise.  [ScanRow] indexes its receivers
    with the number found in the text without comparing it with their count:
    on a row whose scan fails with the text "index 7: boom", scanned with the
    single column [foo], the pattern matches with the groups 7 and boom and
    [ScanRow] panics instead of returning an error. *)
Theorem scan_error_naming_absent_index_panics :
  Scan Examples.names_index_7 [Some (Reflect.PtrTo Examples.string_, DString "a")]
  = (([], ScanFailed "index 7: boom"), Examples.names_index_7)
  ∧ RowScanIndexRe.FindStringSubmatch "index 7: boom" = Some ("7", "boom")
  ∧ ScanRow (Examples.schema Examples.Named) Examples.Named
      (Examples.named "a") Examples.names_index_7 ["foo"]
    = (Panic "index out of range", Examples.named "a", Examples.names_index_7).
Proof. repeat split; vm_compute; reflexivity. Qed.

(** ** Fields written by a scan *)

Section Frame.

Lemma update_field_other name f fs fs' other :
  Store.update_field name f fs = Some fs' →
  other ≠ name →
  Store.field (DStruct fs') other = Store.field (DStruct fs) other.
Proof.
  revert fs'. induction fs as [|[k d] rest IH]; intros fs'; [done|].
  cbn [Store.update_field]. case_bool_decide as Hk.
  - destruct (f d) as [d'|]; [|done]. intros [= <-] Hne. simpl.
    rewrite !bool_decide_false by congruence. done.
  - destruct (Store.update_field name f rest) as [rest'|]; [|done].
    intros [= <-] Hne. simpl in *.
    case_bool_decide; [done|]. by apply IH.
Qed.

Lemma update_field_same name f fs fs' :
  Store.update_field name f fs = Some fs' →
  ∃ d d',
    Store.field (DStruct fs) name = Some d
    ∧ f d = Some d'
    ∧ Store.field (DStruct fs') name = Some d'.
Proof.
  revert fs'. induction fs as [|[k d] rest IH]; intros fs'; [done|].
  cbn [Store.update_field]. case_bool_decide as Hk.
  - destruct (f d) as [d'|] eqn:Hf; [|done]. intros [= <-].
    exists d, d'. simpl. by rewrite !bool_decide_true.
  - destruct (Store.update_field name f rest) as [rest'|]; [|done].
    intros [= <-]. destruct (IH rest' eq_refl) as (d0 & d' & H1 & H2 & H3).
    exists d0, d'. simpl in *. by rewrite !bool_decide_false.
Qed.

(** An assignment leaves the variables apart from the assigned one as they
    were. *)
Lemma get_set_apart q v d d' p :
  Store.set q v d = Some d' →
  Store.apart p q →
  Store.get p d' = Store.get p d.
Proof.
  revert p d d'. induction q as [|name q IH]; intros p d d' Hset [Hpq Hqp].
  - destruct Hqp. apply prefix_nil.
  - destruct p as [|other p]; [destruct Hpq; apply prefix_nil|].
    cbn [Store.set] in Hset. destruct d as [| | | | | |fs| |]; try done.
    destruct (Store.update_field name (Store.set q v) fs) as [fs'|] eqn:Hup;
      [|done].
    injection Hset as <-. cbn [Store.get].
    destruct (decide (other = name)) as [->|Hne].
    + destruct (update_field_same _ _ _ _ Hup) as (d0 & d1 & -> & Hset & ->).
      simpl. eapply IH; [exact Hset|].
      split; intros Hpre; [apply Hpq | apply Hqp]; by apply prefix_cons.
    + by rewrite (update_field_other _ _ _ _ _ Hup Hne).
Qed.

Variables (this : Mapping) (tarval : Reflect.Value) (p : list string).

(** The stores of [Scan] go through the receivers. *)
Lemma apply_writes_frame scan writes target scan' target' :
  apply_writes scan writes target = Ok (scan', target') →
  (∀ q typ, RAddr q typ ∈ scan → Store.apart p q) →
  Store.get p target' = Store.get p target.
Proof.
  revert writes target scan' target'.
  induction scan as [|r scan IH]; intros writes target scan' target'.
  - destruct writes as [|[]]; by intros [= <- <-].
  - destruct writes as [|[v|] writes]; cbn [apply_writes].
    + by intros [= <- <-].
    + destruct r as [|q typ|typ d]; [done| |].
      * destruct (Store.set q v target) as [target1|] eqn:Hset; [|done].
        destruct (apply_writes scan writes target1) as [[rs t2]|] eqn:Hrest;
          cbn [mbind outcome_bind]; [|done].
        intros [= <- <-] Hscan.
        rewrite (IH _ _ _ _ Hrest).
        -- eapply get_set_apart; [exact Hset|]. apply (Hscan q typ). left.
        -- intros q' typ' Hin. apply (Hscan q' typ'). by right.
      * destruct (apply_writes scan writes target) as [[rs t2]|] eqn:Hrest;
          cbn [mbind outcome_bind]; [|done].
        intros [= <- <-] Hscan. apply (IH _ _ _ _ Hrest).
        intros q' typ' Hin. apply (Hscan q' typ'). by right.
    + destruct (apply_writes scan writes target) as [[rs t2]|] eqn:Hrest;
        cbn [mbind outcome_bind]; [|done].
      intros [= <- <-] Hscan. apply (IH _ _ _ _ Hrest).
      intros q' typ' Hin. apply (Hscan q' typ'). by right.
Qed.

(** The copies go to the variables resolved for the columns. *)
Lemma ScanRow_copy_frame scanOrder scan target target' :
  ScanRow_copy this tarval scanOrder scan target = Ok target' →
  (∀ col q, col ∈ scanOrder → column_place this tarval col = Some q →
            Store.apart p q) →
  Store.get p target' = Store.get p target.
Proof.
  revert scan target.
  induction scanOrder as [|col rest IH]; intros scan target; [by intros [= <-]|].
  destruct scan as [|r scan]; [by intros [= <-]|].
  cbn [ScanRow_copy]. intros Hcopy Hplaces.
  assert (Hrest : ∀ col' q, col' ∈ rest →
            column_place this tarval col' = Some q → Store.apart p q).
  { intros col' q Hin. apply Hplaces. by right. }
  destruct (dbToStruct this !! col) as [strucName|] eqn:Hdb;
    cbn [mbind outcome_bind] in *.
  - destruct (scanNesting this !! strucName) as [nest|] eqn:Hnest; [|done].
    destruct (nest tarval) as [s|] eqn:Hs; cbn [mbind outcome_bind] in *; [|done].
    destruct (Reflect.FieldByName s strucName) as [[|q typ|sticky q typ]|]
      eqn:Hfield;
      cbn [mbind outcome_bind] in *; try done.
    destruct (mapping this !! strucName) as [mapper|]; [|done].
    destruct (Store.get q target) as [old|]; [|done].
    destruct (Copy mapper typ old r) as [new|]; cbn [mbind outcome_bind] in *;
      [|done].
    destruct (Store.set q new target) as [target1|] eqn:Hset; [|done].
    cbn [mbind outcome_bind] in *.
    rewrite (IH _ _ Hcopy Hrest).
    eapply get_set_apart; [exact Hset|]. apply (Hplaces col); [left|].
    unfold column_place. rewrite Hdb. cbn [mbind option_bind].
    rewrite Hnest. cbn [mbind option_bind]. rewrite Hs.
    cbn [mbind outcome_bind]. by rewrite Hfield.
  - by apply (IH _ _ Hcopy).
Qed.

(** The receivers that are addresses are the variables resolved for the
    columns. *)
Lemma ScanRow_receivers_places scanOrder scan :
  (∀ name mapper, mapping this !! name = Some mapper → receives_in_place mapper) →
  ScanRow_receivers this tarval scanOrder = Ok scan →
  ∀ q typ, RAddr q typ ∈ scan →
    ∃ col, col ∈ scanOrder ∧ column_place this tarval col = Some q.
Proof.
  intros Hmappers. revert scan.
  induction scanOrder as [|col rest IH]; intros scan.
  - intros [= <-] q typ Hin. by apply elem_of_nil in Hin.
  - cbn [ScanRow_receivers].
    destruct (match dbToStruct this !! col with
              | Some _ => _ | None => _ end) as [r|] eqn:Hr;
      cbn [mbind outcome_bind]; [|done].
    destruct (ScanRow_receivers this tarval rest) as [rs|] eqn:Hrs;
      cbn [mbind outcome_bind]; [|done].
    intros [= <-] q typ [<-|Hin]%elem_of_cons.
    + exists col. split; [left|]. unfold column_place.
      destruct (dbToStruct this !! col) as [strucName|]; [|done].
      destruct (scanNesting this !! strucName) as [nest|] eqn:Hnest; [|done].
      cbn [mbind option_bind outcome_bind] in *.
      destruct (nest tarval) as [s|] eqn:Hs; cbn [mbind outcome_bind] in *;
        [|done].
      destruct (Reflect.FieldByName s strucName) as [field|] eqn:Hf;
        cbn [mbind outcome_bind] in *; [|done].
      destruct (mapping this !! strucName) as [mapper|] eqn:Hm; [|done].
      pose proof (Hmappers _ _ Hm _ _ Hr) as Hfield. simpl in Hfield.
      change (gmap string nesting) with
        (gmap string (Reflect.Value → outcome Reflect.Value)) in *.
      rewrite Hnest. cbn [mbind option_bind]. rewrite Hs.
      cbn [mbind outcome_bind]. by rewrite Hf, Hfield.
    + destruct (IH rs eq_refl q typ Hin) as (col' & Hcol' & Hplace).
      exists col'. split; [by right | done].
Qed.

End Frame.

(** A successful [ScanRow] leaves every variable of the target as it was
    that is apart from the variables resolved for the names of
    [scanOrder]. *)
Lemma ScanRow_frame {R} `{!Row R} (this : Mapping) (p : list string)
    t target (row : R) scanOrder target' row' :
  (∀ name mapper, mapping this !! name = Some mapper → receives_in_place mapper) →
  ScanRow this t target row scanOrder = (Ok None, target', row') →
  (∀ col q, col ∈ scanOrder →
            column_place this (Reflect.Place [] t) col = Some q →
            Store.apart p q) →
  Store.get p target' = Store.get p target.
Proof.
  intros Hmappers. unfold ScanRow.
  destruct (structType this) as [recordType|]; [|done].
  destruct (negb _); [done|].
  destruct (ScanRow_receivers _ _ _) as [scan|] eqn:Hscan; [|done].
  destruct (receiver_dests _ _) as [dests|]; [|done].
  destruct (Scan row dests) as [[writes verdict] row1].
  destruct (apply_writes _ _ _) as [[scan1 target1]|] eqn:Hwrites; [|done].
  destruct verdict; [|by unfold ScanRow_error; repeat case_match|done].
  destruct (ScanRow_copy _ _ _ _ _) as [target2|] eqn:Hcopy; [|done].
  intros [= <- <-] Hplaces.
  rewrite (ScanRow_copy_frame _ _ _ _ _ _ _ Hcopy Hplaces).
  apply (apply_writes_frame _ _ _ _ _ _ Hwrites).
  intros q typ Hin.
  destruct (ScanRow_receivers_places _ _ _ _ Hmappers Hscan q typ Hin)
    as (col & Hcol & Hplace).
  by apply (Hplaces col).
Qed.

(** The mappers of native.go and json.go receive in place. *)
Lemma init_mappers_receive_in_place : Forall receives_in_place init_mappers.
Proof.
  repeat constructor; intros field r; simpl.
  - destruct field as [|path typ|sticky path typ]; simpl; [done| |done].
    case_match; [|done]. by intros [= <-].
  - destruct field as [|path typ|sticky path typ]; simpl; [done| |done].
    by intros [= <-].
  - by intros [= <-].
Qed.


#[local] Existing Instance own_type_only.

(** C10. A successful [ScanRow] must leave every field whose column is not
    in [scanOrder] as it was, and write only fields of columns that are.  The
    maps of a [Mapping] are keyed by the bare field name: in [Account], the
    column [base_id] of the embedded field [Base.ID] and the column [id] of
    the field [ID] lead to the same name, and the resolver recorded last, the
    one of [ID], serves both.  Scanning the single column [base_id] returns
    nil, overwrites [ID], whose column is not scanned, and leaves [Base.ID],
    whose column is, untouched. *)
Theorem scan_writes_field_of_unscanned_column :
  dbToStruct (Examples.schema Examples.Account) !! "base_id" = Some "ID"
  ∧ dbToStruct (Examples.schema Examples.Account) !! "id" = Some "ID"
  ∧ column_place (Examples.schema Examples.Account)
      (Reflect.Place [] Examples.Account) "base_id" = Some ["ID"]
  ∧ TestUtil.Cols Examples.base_id_row = ["base_id"]
  ∧ Store.get ["ID"] Examples.account = Some (DInt 2)
  ∧ Store.get ["Base"; "ID"] Examples.account = Some (DInt 1)
  ∧ ScanRow (Examples.schema Examples.Account) Examples.Account
      Examples.account Examples.base_id_row ["base_id"]
    = (Ok None,
       DStruct [("Base", DStruct [("ID", DInt 1)]); ("ID", DInt 7)],
       Examples.base_id_row).
Proof. repeat split; vm_compute; reflexivity. Qed.

(** ** Names of [scanOrder] that are not columns of the mapping *)

Section UnknownColumn.

Variables (this : Mapping) (tarval : Reflect.Value) (col : string).
Hypothesis Hunknown : dbToStruct this !! col = None.




End UnknownColumn.





(** * Part III: further properties of the package *)

(** ** The schema builder *)

Section SchemaBuilder.

Variable mappers : list Mapper.

Lemma mapStruct_structType t nest this :
  structType (mapStruct mappers t nest this).1 = structType this.
Proof.
  symmetry.
  apply (mapStruct_respects mappers (λ a b, structType a = structType b)).
  - done.
  - intros a b c Hab Hbc. by rewrite Hab.
  - intros a field nest' dbName. unfold mapStruct_assign.
    destruct (dbToStruct a !! dbName); [done|].
    by destruct (first_accepting _ _).
Qed.

Lemma mapStruct_assign_registered this field nest dbName :
  map_Forall (λ _ mapper, mapper ∈ mappers) (mapping this) →
  map_Forall (λ _ mapper, mapper ∈ mappers)
    (mapping (mapStruct_assign mappers this field nest dbName).1).
Proof.
  intros Hall. unfold mapStruct_assign.
  destruct (dbToStruct this !! dbName); [done|].
  destruct (first_accepting mappers (Reflect.Type_ field)) as [mapper|] eqn:Hm;
    [|done].
  simpl. apply map_Forall_insert_2; [|done].
  clear -Hm. induction mappers as [|m ms IH]; [done|].
  simpl in Hm. destruct (Accepts m _).
  - injection Hm as ->. left.
  - right. by apply IH.
Qed.

Lemma mapStruct_registered t nest this :
  map_Forall (λ _ mapper, mapper ∈ mappers) (mapping this) →
  map_Forall (λ _ mapper, mapper ∈ mappers)
    (mapping (mapStruct mappers t nest this).1).
Proof.
  apply (mapStruct_respects mappers
           (λ a b, map_Forall (λ _ mapper, mapper ∈ mappers) (mapping a) →
                   map_Forall (λ _ mapper, mapper ∈ mappers) (mapping b))).
  - done.
  - intros a b c Hab Hbc Ha. by apply Hbc, Hab.
  - intros a field nest' dbName. apply mapStruct_assign_registered.
Qed.

Lemma StructMapping_cases t :
  StructMapping mappers t
  = (if negb (bool_decide (Reflect.kind t = Reflect.Struct))
     then (zero_Mapping, Some (NotAStruct (Reflect.kind t)))
     else
       match (mapStruct mappers t noNesting
                {| structType := Some t; dbToStruct := ∅; mapping := ∅;
                   scanNesting := ∅ |}).2 with
       | Some err => (zero_Mapping, Some err)
       | None =>
           ((mapStruct mappers t noNesting
               {| structType := Some t; dbToStruct := ∅; mapping := ∅;
                  scanNesting := ∅ |}).1, None)
       end).
Proof.
  unfold StructMapping. destruct (negb _); [done|].
  by destruct (mapStruct _ _ _ _) as [m [err|]].
Qed.

End SchemaBuilder.

(** X1. [StructMapping] is all or nothing: with an error it returns the
    zero [Mapping], and without one a [Mapping] that records the struct type
    it was given, which is then of kind [Struct]. *)
Theorem StructMapping_all_or_nothing (mappers : list Mapper) (t : Reflect.type) :
  match (StructMapping mappers t).2 with
  | Some _ => (StructMapping mappers t).1 = zero_Mapping
  | None =>
      structType (StructMapping mappers t).1 = Some t
      ∧ Reflect.kind t = Reflect.Struct
  end.
Proof.
  rewrite StructMapping_cases. case_bool_decide as Hkind; simpl; [|done].
  pose proof (mapStruct_structType mappers t noNesting
                {| structType := Some t; dbToStruct := ∅; mapping := ∅;
                   scanNesting := ∅ |}) as Htype.
  destruct (mapStruct _ _ _ _) as [m [err|]]; simpl in *; done.
Qed.

(** X2. In every [Mapping] that [StructMapping] returns, each column of
    [dbToStruct] leads to a field name that has a nesting resolver, and each
    mapper is one of the registry. *)
Theorem StructMapping_resolvers_and_registry (mappers : list Mapper)
    (t : Reflect.type) :
  resolvers_present (StructMapping mappers t).1
  ∧ map_Forall (λ _ mapper, mapper ∈ mappers)
      (mapping (StructMapping mappers t).1).
Proof.
  split.
  - destruct (StructMapping mappers t) as [m [err|]] eqn:Hm;
      [|by eapply StructMapping_resolvers_present].
    rewrite StructMapping_cases in Hm.
    assert (m = zero_Mapping) as ->.
    { destruct (negb _); [by injection Hm as <-|].
      destruct (mapStruct _ _ _ _).2; by injection Hm as <-. }
    intros col name. simpl. by rewrite lookup_empty.
  - rewrite StructMapping_cases. destruct (negb _); simpl.
    { apply map_Forall_empty. }
    pose proof (mapStruct_registered mappers t noNesting
                  {| structType := Some t; dbToStruct := ∅; mapping := ∅;
                     scanNesting := ∅ |}) as Hreg.
    destruct (mapStruct _ _ _ _) as [m [err|]]; simpl in *.
    + apply map_Forall_empty.
    + apply Hreg, map_Forall_empty.
Qed.

(** X3. For a struct type without embedded structs to recurse into, every
    column of the [Mapping] that [StructMapping] returns leads to a field name
    that has a mapper: [ScanRow] over such a mapping never calls a nil
    [Mapper]. *)
Theorem StructMapping_flat_has_mappers (mappers : list Mapper)
    (t : Reflect.type) :
  Forall (λ f, recursed_into f = false) (Reflect.fields t) →
  mappers_present (StructMapping mappers t).1.
Proof.
  intros Hflat.
  destruct (StructMapping mappers t) as [m [err|]] eqn:Hm.
  - rewrite StructMapping_cases in Hm.
    assert (m = zero_Mapping) as ->.
    { destruct (negb _); [by injection Hm as <-|].
      destruct (mapStruct _ _ _ _).2; by injection Hm as <-. }
    intros col name. simpl. by rewrite lookup_empty.
  - by destruct (StructMapping_flat_consistent mappers t m Hflat Hm).
Qed.

Lemma StructMapping_flat_has_mappers_witness :
  Forall (λ f, recursed_into f = false) (Reflect.fields Examples.Named)
  ∧ mappers_present (StructMapping init_mappers Examples.Named).1.
Proof.
  assert (Hflat : Forall (λ f, recursed_into f = false)
                    (Reflect.fields Examples.Named)).
  { repeat constructor. }
  split; [exact Hflat|].
  exact (StructMapping_flat_has_mappers init_mappers Examples.Named Hflat).
Defined.

(** X4. Two fields of the struct handed to [StructMapping] that resolve to
    the same column name, by tag or by inference, make it return an error and
    the zero [Mapping]. *)
Theorem StructMapping_duplicate_among_own_fields (mappers : list Mapper)
    (t : Reflect.type) (before between after : list Reflect.StructField)
    (f1 f2 : Reflect.StructField) (col : string) :
  Reflect.kind t = Reflect.Struct →
  Reflect.fields t = before ++ f1 :: between ++ f2 :: after →
  resolved_column f1 = Some col →
  resolved_column f2 = Some col →
  ∃ err, StructMapping mappers t = (zero_Mapping, Some err).
Proof. apply StructMapping_top_level_duplicate. Qed.

Lemma StructMapping_duplicate_among_own_fields_witness :
  Reflect.kind Samples.TwoFoo = Reflect.Struct
  ∧ resolved_column (Reflect.mkStructField "Foo" Examples.int [("db", "foo")] false)
    = Some "foo"
  ∧ resolved_column (Reflect.mkStructField "Bar" Examples.int [("db", "foo")] false)
    = Some "foo"
  ∧ ∃ err, StructMapping init_mappers Samples.TwoFoo = (zero_Mapping, Some err).
Proof.
  split; [reflexivity|]. split; [reflexivity|]. split; [reflexivity|].
  apply (StructMapping_duplicate_among_own_fields init_mappers Samples.TwoFoo
           [] [] []
           (Reflect.mkStructField "Foo" Examples.int [("db", "foo")] false)
           (Reflect.mkStructField "Bar" Examples.int [("db", "foo")] false)
           "foo"); reflexivity.
Defined.

(** X5. A field of the struct handed to [StructMapping] that resolves to a
    column and whose type no registered mapper accepts makes it return an
    error and the zero [Mapping]. *)
Theorem StructMapping_unsupported_own_field (mappers : list Mapper)
    (t : Reflect.type) (before after : list Reflect.StructField)
    (f : Reflect.StructField) (col : string) :
  Reflect.kind t = Reflect.Struct →
  Reflect.fields t = before ++ f :: after →
  resolved_column f = Some col →
  first_accepting mappers (Reflect.Type_ f) = None →
  ∃ err, StructMapping mappers t = (zero_Mapping, Some err).
Proof.
  intros Hkind Hfields Hcol Hnone. unfold StructMapping.
  rewrite bool_decide_true by done. cbn [negb].
  rewrite mapStruct_of_struct, Hfields, mapStruct_loop_app by done.
  destruct (mapStruct_loop _ _ before _ _) as [this0 [err|]]; [by eexists|].
  rewrite (mapStruct_loop_resolved _ _ _ _ _ _ col Hcol).
  unfold mapStruct_assign. rewrite Hnone.
  destruct (dbToStruct this0 !! col); by eexists.
Qed.

Lemma StructMapping_unsupported_own_field_witness :
  Reflect.kind Examples.Audit = Reflect.Struct
  ∧ first_accepting init_mappers (Reflect.SliceOf Examples.string_) = None
  ∧ ∃ err, StructMapping init_mappers Examples.Audit = (zero_Mapping, Some err).
Proof.
  split; [reflexivity|]. split; [reflexivity|].
  apply (StructMapping_unsupported_own_field init_mappers Examples.Audit [] []
           (Reflect.mkStructField "Tags" (Reflect.SliceOf Examples.string_)
              [("db", "tags")] false) "tags"); reflexivity.
Defined.

(** X6. A field tagged [db:"-"] takes no part in the mapping, wherever it
    stands among the fields: [mapStruct] does for the struct what it does for
    the struct without the field. *)
Theorem mapStruct_skips_dash (mappers : list Mapper)
    (before after : list Reflect.StructField) (f : Reflect.StructField)
    (nest : nesting) (this : Mapping) :
  Reflect.Tag_Get (Reflect.Tag f) "db" = "-" →
  mapStruct mappers (Reflect.StructOf (before ++ f :: after)) nest this
  = mapStruct mappers (Reflect.StructOf (before ++ after)) nest this.
Proof.
  intros Hdash. cbn [mapStruct]. rewrite !mapStruct_loop_app.
  destruct (mapStruct_loop _ _ before _ _) as [this0 [err|]]; [done|].
  cbn [mapStruct_loop]. by rewrite Hdash.
Qed.

Lemma mapStruct_skips_dash_witness :
  Reflect.Tag_Get [("db", "-")] "db" = "-"
  ∧ map_to_list (dbToStruct (StructMapping init_mappers Samples.Hidden).1)
    = [("bar", "Bar")]
  ∧ mapStruct init_mappers
      (Reflect.StructOf
         ([] ++ Reflect.mkStructField "Foo" Examples.int [("db", "-")] false
             :: [Reflect.mkStructField "Bar" Examples.string_ [] false]))
      noNesting zero_Mapping
    = mapStruct init_mappers
        (Reflect.StructOf
           ([] ++ [Reflect.mkStructField "Bar" Examples.string_ [] false]))
        noNesting zero_Mapping.
Proof.
  split; [reflexivity|]. split; [vm_compute; reflexivity|].
  apply (mapStruct_skips_dash init_mappers []
           [Reflect.mkStructField "Bar" Examples.string_ [] false]
           (Reflect.mkStructField "Foo" Examples.int [("db", "-")] false)
           noNesting zero_Mapping).
  reflexivity.
Defined.

Section Completeness.

Variable mappers : list Mapper.

Lemma mapStruct_loop_flat_columns rec fields nest this :
  Forall (λ f, recursed_into f = false) fields →
  NoDup (columns_of fields).*1 →
  Forall (λ c, dbToStruct this !! c = None) (columns_of fields).*1 →
  Forall (λ f, is_Some (resolved_column f) →
               is_Some (first_accepting mappers (Reflect.Type_ f))) fields →
  ∃ this',
    mapStruct_loop mappers rec fields nest this = (this', None)
    ∧ dbToStruct this' = list_to_map (columns_of fields) ∪ dbToStruct this
    ∧ structType this' = structType this.
Proof.
  intros Hflat. revert this.
  induction Hflat as [|f rest Hf _ IH]; intros this Hnodup Hfree Hacc.
  - exists this. simpl. by rewrite (left_id_L ∅ (∪)).
  - apply Forall_cons in Hacc as [Hacc1 Hacc].
    unfold columns_of in Hnodup, Hfree |- *. cbn [omap list_omap] in *.
    destruct (resolved_column f) as [col|] eqn:Hcol; cbn [fmap option_fmap option_map] in *.
    + cbn [fmap list_fmap fst] in Hnodup, Hfree.
      apply NoDup_cons in Hnodup as [Hnotin Hnodup].
      apply Forall_cons in Hfree as [Hfree1 Hfree].
      rewrite (mapStruct_loop_resolved _ _ _ _ _ _ col Hcol).
      unfold mapStruct_assign. rewrite Hfree1.
      destruct Hacc1 as [mapper Hmapper]; [by eexists|]. rewrite Hmapper.
      edestruct (IH (Build_Mapping (structType this)
                       (<[col := Reflect.Name f]> (dbToStruct this))
                       (<[Reflect.Name f := mapper]> (mapping this))
                       (<[Reflect.Name f := nest]> (scanNesting this))))
        as (this' & Hloop & Hdb & Htype); [done| |done|].
      { simpl. rewrite Forall_forall in Hfree |- *. intros c Hc.
        rewrite lookup_insert_ne; [by apply Hfree|]. by intros ->. }
      exists this'. split; [exact Hloop|]. split; [|done].
      rewrite Hdb. simpl.
      rewrite <- insert_union_l, <- insert_union_r; [done|].
      apply not_elem_of_list_to_map_1. exact Hnotin.
    + assert (Hskip : mapStruct_loop mappers rec (f :: rest) nest this
                      = mapStruct_loop mappers rec rest nest this).
      { cbn [mapStruct_loop]. unfold resolved_column in Hcol.
        case_bool_decide; [done|]. fold (recursed_into f). rewrite Hf in *.
        done. }
      rewrite Hskip. by apply IH.
Qed.

End Completeness.

(** X7. For a struct type without embedded structs to recurse into, whose
    fields resolve to pairwise distinct columns and have types the registry
    accepts, [StructMapping] returns no error, and the columns of the mapping
    are exactly the resolved columns, each leading to the name of its
    field. *)
Theorem StructMapping_flat_columns (mappers : list Mapper) (t : Reflect.type) :
  Reflect.kind t = Reflect.Struct →
  Forall (λ f, recursed_into f = false) (Reflect.fields t) →
  NoDup (columns_of (Reflect.fields t)).*1 →
  Forall (λ f, is_Some (resolved_column f) →
               is_Some (first_accepting mappers (Reflect.Type_ f)))
    (Reflect.fields t) →
  ∃ m,
    StructMapping mappers t = (m, None)
    ∧ dbToStruct m = list_to_map (columns_of (Reflect.fields t))
    ∧ structType m = Some t.
Proof.
  intros Hkind Hflat Hnodup Hacc. unfold StructMapping.
  rewrite bool_decide_true by done. cbn [negb].
  rewrite mapStruct_of_struct by done.
  destruct (mapStruct_loop_flat_columns mappers (mapStruct mappers)
              (Reflect.fields t) noNesting
              {| structType := Some t; dbToStruct := ∅; mapping := ∅;
                 scanNesting := ∅ |} Hflat Hnodup)
    as (m & -> & Hdb & Htype); [|done|].
  { apply Forall_forall. intros c _. apply lookup_empty. }
  exists m. split; [done|]. split; [|done].
  rewrite Hdb. simpl. by rewrite (right_id_L ∅ (∪)).
Qed.

Lemma StructMapping_flat_columns_witness :
  Reflect.kind Samples.Hidden = Reflect.Struct
  ∧ columns_of (Reflect.fields Samples.Hidden) = [("bar", "Bar")]
  ∧ ∃ m,
      StructMapping init_mappers Samples.Hidden = (m, None)
      ∧ dbToStruct m = list_to_map (columns_of (Reflect.fields Samples.Hidden))
      ∧ structType m = Some Samples.Hidden.
Proof.
  split; [reflexivity|]. split; [vm_compute; reflexivity|].
  apply (StructMapping_flat_columns init_mappers Samples.Hidden).
  - reflexivity.
  - repeat constructor.
  - vm_compute. repeat constructor. intros H. inversion H.
  - repeat constructor.
    + intros [c Hc]. vm_compute in Hc. discriminate.
    + intros _. vm_compute. eauto.
Defined.

(** ** Inferred column names *)

Section InferredNames.

Let non_upper := λ c : ascii, negb (Strings.is_upper c).

Lemma lower_char_non_upper c : non_upper (Strings.lower_char c) = true.
Proof. by destruct c as [[] [] [] [] [] [] [] []]. Qed.

Lemma ToLower_non_upper s :
  Strings.all_chars non_upper (Strings.ToLower s) = true.
Proof.
  induction s as [|c s IH]; [done|].
  cbn [Strings.ToLower Strings.all_chars]. by rewrite lower_char_non_upper, IH.
Qed.

Lemma all_chars_app p s t :
  Strings.all_chars p (s +:+ t)
  = Strings.all_chars p s && Strings.all_chars p t.
Proof.
  induction s as [|c s IH]; [done|].
  rewrite append_cons. cbn [Strings.all_chars]. rewrite IH.
  by destruct (p c).
Qed.

Lemma Join_all_chars p parts sep :
  Forall (λ s, Strings.all_chars p s = true) parts →
  Strings.all_chars p sep = true →
  Strings.all_chars p (Strings.Join parts sep) = true.
Proof.
  intros Hparts Hsep. induction Hparts as [|s parts Hs Hrest IH]; [done|].
  cbn [Strings.Join]. destruct parts as [|s' parts]; [done|].
  by rewrite !all_chars_app, Hs, Hsep, IH.
Qed.

Lemma defaultDBName_parts_non_upper g :
  Strings.all_chars non_upper g.2 = true →
  Forall (λ s, Strings.all_chars non_upper s = true) (defaultDBName_parts g).
Proof.
  destruct g as [head tail]. cbn [snd]. intros Htail.
  unfold defaultDBName_parts. destruct (_ && _).
  - repeat constructor; [apply ToLower_non_upper|].
    by rewrite all_chars_app, ToLower_non_upper, Htail.
  - repeat constructor. by rewrite all_chars_app, ToLower_non_upper, Htail.
Qed.

Lemma FindAll_tails s :
  Forall (λ g, Strings.all_chars non_upper g.2 = true)
    (fieldNameRe_FindAllStringSubmatch s).
Proof.
  pose proof (scan_tails s) as H. by rewrite scan_FindAll in H.
Qed.

Lemma FindAll_drop_leading pre s :
  Strings.all_chars non_upper pre = true →
  fieldNameRe_FindAllStringSubmatch (pre +:+ s)
  = fieldNameRe_FindAllStringSubmatch s.
Proof.
  induction pre as [|c pre IH]; [done|].
  cbn [Strings.all_chars]. intros [Hc Hpre]%andb_prop.
  rewrite append_cons, FindAll_skip; [by apply IH|].
  unfold non_upper in Hc. by destruct (Strings.is_upper c).
Qed.

Lemma append_nil_r s : s +:+ "" = s.
Proof. induction s as [|c s IH]; [done|]. by rewrite append_cons, IH. Qed.

Lemma append_assoc s t u : (s +:+ t) +:+ u = s +:+ (t +:+ u).
Proof.
  induction s as [|c s IH]; [done|]. by rewrite !append_cons, IH.
Qed.

End InferredNames.

(** X8. A column name inferred by [defaultDBName] contains no byte of
    [[A-Z]], whatever the field name. *)
Theorem defaultDBName_has_no_upper_case (fieldName : string) :
  Strings.all_chars (λ c, negb (Strings.is_upper c)) (defaultDBName fieldName)
  = true.
Proof.
  unfold defaultDBName. apply Join_all_chars; [|done].
  apply Forall_concat, Forall_fmap.
  eapply Forall_impl; [apply FindAll_tails|].
  intros g Hg. by apply defaultDBName_parts_non_upper.
Qed.

(** X9. [defaultDBName] drops whatever precedes the first byte of [[A-Z]]:
    a prefix without such bytes does not change the inferred name, and a
    field name without any, such as the name of an unexported field, is
    given the empty column name. *)
Theorem defaultDBName_drops_leading_lower_case (pre fieldName : string) :
  Strings.all_chars (λ c, negb (Strings.is_upper c)) pre = true →
  defaultDBName (pre +:+ fieldName) = defaultDBName fieldName
  ∧ defaultDBName pre = "".
Proof.
  intros Hpre. unfold defaultDBName. split.
  - by rewrite FindAll_drop_leading.
  - rewrite <- (append_nil_r pre), FindAll_drop_leading by done.
    by rewrite FindAll_nil.
Qed.

Lemma defaultDBName_drops_leading_lower_case_witness :
  Strings.all_chars (λ c, negb (Strings.is_upper c)) "foo" = true
  ∧ defaultDBName "fooBar" = "bar"
  ∧ defaultDBName ("foo" +:+ "Bar") = defaultDBName "Bar"
  ∧ defaultDBName "foo" = "".
Proof.
  split; [reflexivity|]. split; [vm_compute; reflexivity|].
  apply (defaultDBName_drops_leading_lower_case "foo" "Bar"). reflexivity.
Defined.

Section NameComposition.

Let non_upper := λ c : ascii, negb (Strings.is_upper c).

(** A string that starts with a run has a first group. *)
Lemma scan_starts_with_group s :
  s ≠ "" → (NameSpec.scan s).1 = "" → (NameSpec.scan s).2 ≠ [].
Proof.
  destruct s as [|c s]; [done|]. intros _. cbn [NameSpec.scan].
  destruct (NameSpec.scan s) as [pre gs].
  destruct (Strings.is_upper c); [|done].
  intros _. destruct pre; [destruct gs as [|[run tail] gs]|]; done.
Qed.

(** The groups of a string cut after a byte outside [[A-Z]] and before a
    byte of [[A-Z]] are the groups of its two parts. *)
Lemma scan_append s a t :
  Strings.is_upper a = false →
  (NameSpec.scan t).1 = "" →
  NameSpec.scan ((s +:+ String a "") +:+ t)
  = ((NameSpec.scan (s +:+ String a "")).1,
     (NameSpec.scan (s +:+ String a "")).2 ++ (NameSpec.scan t).2).
Proof.
  intros Ha Ht. induction s as [|c s IH].
  - change (("" +:+ String a "") +:+ t) with (String a t).
    change ("" +:+ String a "") with (String a "").
    cbn [NameSpec.scan]. destruct (NameSpec.scan t) as [pre gs].
    simpl in Ht. subst pre. by rewrite Ha.
  - rewrite !append_cons. cbn [NameSpec.scan]. rewrite IH.
    pose proof (scan_starts_with_group (s +:+ String a "")) as Hgroup.
    destruct (NameSpec.scan (s +:+ String a "")) as [pre gs]. cbn [fst snd] in *.
    destruct (Strings.is_upper c); [|done].
    destruct pre as [|b pre]; [|done].
    destruct gs as [|[run tail] gs]; [|done].
    destruct Hgroup; [|done..]. by destruct s.
Qed.

Lemma Join_app parts parts' sep :
  parts ≠ [] → parts' ≠ [] →
  Strings.Join (parts ++ parts') sep
  = Strings.Join parts sep +:+ sep +:+ Strings.Join parts' sep.
Proof.
  intros Hparts Hparts'. induction parts as [|p parts IH]; [done|].
  destruct parts as [|q parts].
  - destruct parts' as [|p' parts']; done.
  - change (Strings.Join ((p :: q :: parts) ++ parts') sep)
      with (p +:+ sep +:+ Strings.Join ((q :: parts) ++ parts') sep).
    rewrite IH by done. cbn [Strings.Join].
    by rewrite !append_assoc.
Qed.

Lemma defaultDBName_parts_nonempty g : defaultDBName_parts g ≠ [].
Proof. destruct g as [head tail]. simpl. by destruct (_ && _). Qed.

Lemma concat_parts_nonempty gs :
  gs ≠ [] → concat (map defaultDBName_parts gs) ≠ [].
Proof.
  destruct gs as [|g gs]; [done|]. intros _. simpl.
  pose proof (defaultDBName_parts_nonempty g).
  by destruct (defaultDBName_parts g).
Qed.

(** A string with a byte of [[A-Z]] has a match. *)
Lemma FindAll_nonempty s :
  Strings.all_chars non_upper s = false →
  fieldNameRe_FindAllStringSubmatch s ≠ [].
Proof.
  induction s as [|c s IH]; [done|]. cbn [Strings.all_chars].
  unfold non_upper at 1. destruct (Strings.is_upper c) eqn:Hc.
  - intros _. by rewrite (FindAll_match _ _ Hc).
  - rewrite FindAll_skip by done. simpl. apply IH.
Qed.

End NameComposition.

(** X10. Inference works word by word: where a field name is cut after a
    byte outside [[A-Z]] and before a byte of [[A-Z]], and the first part has
    a byte of [[A-Z]], the inferred name is the inferred names of the two
    parts joined by an underscore. *)
Theorem defaultDBName_of_two_words (s t : string) (a c : ascii) :
  Strings.all_chars (λ c, negb (Strings.is_upper c)) s = false →
  Strings.is_upper a = false →
  Strings.is_upper c = true →
  defaultDBName ((s +:+ String a "") +:+ String c t)
  = defaultDBName (s +:+ String a "") +:+ "_" +:+ defaultDBName (String c t).
Proof.
  intros Hs Ha Hc. unfold defaultDBName.
  assert (Hscan : (NameSpec.scan (String c t)).1 = "").
  { rewrite scan_FindAll. simpl. by rewrite Hc. }
  pose proof (scan_append s a (String c t) Ha Hscan) as Happ.
  rewrite !scan_FindAll in Happ. injection Happ as _ ->.
  rewrite map_app, concat_app. apply Join_app.
  - apply concat_parts_nonempty, FindAll_nonempty.
    rewrite all_chars_app. by rewrite Hs.
  - apply concat_parts_nonempty. by rewrite (FindAll_match _ _ Hc).
Qed.

Lemma defaultDBName_of_two_words_witness :
  Strings.all_chars (λ c, negb (Strings.is_upper c)) "JSONThin" = false
  ∧ Strings.is_upper "g" = false
  ∧ Strings.is_upper "F" = true
  ∧ defaultDBName (("JSONThin" +:+ "g") +:+ "Foo")
    = defaultDBName ("JSONThin" +:+ "g") +:+ "_" +:+ defaultDBName "Foo"
  ∧ defaultDBName "JSONThingFoo" = "json_thing_foo".
Proof.
  split; [reflexivity|]. split; [reflexivity|]. split; [reflexivity|].
  split; [|vm_compute; reflexivity].
  apply (defaultDBName_of_two_words "JSONThin" "oo" "g" "F"); reflexivity.
Defined.

(** ** The pattern for scan errors *)

Section IndexPattern.

Lemma strip_prefix_app prefix s :
  RowScanIndexRe.strip_prefix prefix (prefix +:+ s) = Some s.
Proof.
  induction prefix as [|a prefix IH]; [by destruct s|].
  rewrite append_cons. cbn [RowScanIndexRe.strip_prefix].
  by rewrite bool_decide_true.
Qed.

Lemma span_digits m rest :
  Strings.all_chars Strings.is_digit m = true →
  Strings.span Strings.is_digit (m +:+ ": " +:+ rest) = (m, ": " +:+ rest).
Proof.
  induction m as [|c m IH]; [done|].
  cbn [Strings.all_chars]. intros [Hc Hm]%andb_prop.
  rewrite append_cons. cbn [Strings.span]. by rewrite Hc, IH.
Qed.

Lemma match_here_index m1 m2 :
  m1 ≠ "" → Strings.all_chars Strings.is_digit m1 = true →
  m2 ≠ "" →
  Strings.all_chars
    (λ c, negb (bool_decide (c = RowScanIndexRe.line_feed))) m2 = true →
  RowScanIndexRe.match_here ("index " +:+ m1 +:+ ": " +:+ m2) = Some (m1, m2).
Proof.
  intros Hm1 Hdigits Hm2 Hlf. unfold RowScanIndexRe.match_here.
  rewrite strip_prefix_app. cbn [mbind option_bind].
  rewrite span_digits by done. cbn [fst snd].
  rewrite bool_decide_false by done.
  rewrite strip_prefix_app. cbn [mbind option_bind].
  rewrite bool_decide_false by done. by rewrite Hlf.
Qed.

Lemma match_here_not_i c s :
  c ≠ "i"%char → RowScanIndexRe.match_here (String c s) = None.
Proof.
  intros Hc. unfold RowScanIndexRe.match_here.
  cbn [RowScanIndexRe.strip_prefix]. by rewrite bool_decide_false.
Qed.

Lemma FindStringSubmatch_after before text :
  Strings.all_chars (λ c, negb (bool_decide (c = "i"%char))) before = true →
  RowScanIndexRe.FindStringSubmatch (before +:+ text)
  = RowScanIndexRe.FindStringSubmatch text.
Proof.
  induction before as [|c before IH]; [done|].
  cbn [Strings.all_chars]. intros [Hc Hbefore]%andb_prop.
  rewrite append_cons. cbn [RowScanIndexRe.FindStringSubmatch].
  rewrite match_here_not_i; [by apply IH|].
  by case_bool_decide.
Qed.

End IndexPattern.

(** X11. [rowScanIndexRe] recognises the format of the scan errors of
    database/sql: a text made of a prefix without the letter i, the word
    index, a decimal number, a colon and a message on one line matches with
    that number and that message, and when the number is the position of a
    receiver, the error [ScanRow] forms carries the number, the message and
    the type of that receiver. *)
Theorem scan_error_format_is_recognised (before m1 m2 : string)
    (scan : list receiver) (r : receiver) :
  Strings.all_chars (λ c, negb (bool_decide (c = "i"%char))) before = true →
  m1 ≠ "" → Strings.all_chars Strings.is_digit m1 = true →
  m2 ≠ "" →
  Strings.all_chars
    (λ c, negb (bool_decide (c = RowScanIndexRe.line_feed))) m2 = true →
  scan !! Z.to_nat (Strconv.Atoi m1) = Some r →
  RowScanIndexRe.FindStringSubmatch (before +:+ "index " +:+ m1 +:+ ": " +:+ m2)
  = Some (m1, m2)
  ∧ ScanRow_error scan (before +:+ "index " +:+ m1 +:+ ": " +:+ m2)
    = Ok (Some (ScanErrorOnIndex (Strconv.Atoi m1) m2 (receiver_TypeOf r))).
Proof.
  intros Hbefore Hm1 Hdigits Hm2 Hlf Hr.
  assert (Hfind : RowScanIndexRe.FindStringSubmatch
                    (before +:+ "index " +:+ m1 +:+ ": " +:+ m2) = Some (m1, m2)).
  { rewrite FindStringSubmatch_after by done.
    pose proof (match_here_index m1 m2 Hm1 Hdigits Hm2 Hlf) as Hhere.
    change ("index " +:+ m1 +:+ ": " +:+ m2)
      with (String "i" ("ndex " +:+ m1 +:+ ": " +:+ m2)) in *.
    cbn [RowScanIndexRe.FindStringSubmatch]. by rewrite Hhere. }
  split; [done|]. unfold ScanRow_error. by rewrite Hfind, Hr.
Qed.

Lemma scan_error_format_is_recognised_witness :
  Strings.all_chars (λ c, negb (bool_decide (c = "i"%char)))
    "sql: Scan error on column " = true
  ∧ "1" ≠ "" ∧ Strings.all_chars Strings.is_digit "1" = true
  ∧ "boom" ≠ ""
  ∧ [RNil; RAddr ["Foo"] Examples.string_] !! Z.to_nat (Strconv.Atoi "1")
    = Some (RAddr ["Foo"] Examples.string_)
  ∧ ScanRow_error [RNil; RAddr ["Foo"] Examples.string_]
      ("sql: Scan error on column " +:+ "index " +:+ "1" +:+ ": " +:+ "boom")
    = Ok (Some (ScanErrorOnIndex 1 "boom"
                  (Some (Reflect.PtrTo Examples.string_)))).
Proof.
  split; [reflexivity|]. split; [done|]. split; [reflexivity|].
  split; [done|]. split; [reflexivity|].
  apply (scan_error_format_is_recognised "sql: Scan error on column " "1" "boom"
           [RNil; RAddr ["Foo"] Examples.string_]
           (RAddr ["Foo"] Examples.string_)); done.
Defined.

(** X12. A text that [rowScanIndexRe] matches ends with the word index, a
    non-empty decimal number, a colon, a space and a non-empty message
    without a line feed, the two groups being the number and the message;
    [ScanRow] does not pass such an error on as it is. *)
Theorem scan_error_match_has_the_format (scan : list receiver)
    (text m1 m2 : string) :
  RowScanIndexRe.FindStringSubmatch text = Some (m1, m2) →
  ∃ before,
    text = before +:+ "index " +:+ m1 +:+ ": " +:+ m2
    ∧ m1 ≠ "" ∧ Strings.all_chars Strings.is_digit m1 = true
    ∧ m2 ≠ ""
    ∧ Strings.all_chars
        (λ c, negb (bool_decide (c = RowScanIndexRe.line_feed))) m2 = true
    ∧ ScanRow_error scan text ≠ Ok (Some (CursorError text)).
Proof.
  intros Hfind.
  destruct (FindStringSubmatch_Some text m1 m2 Hfind)
    as (before & Htext & H1 & H2 & H3 & H4).
  exists before. repeat split; try done.
  unfold ScanRow_error. rewrite Hfind. by destruct (scan !! _).
Qed.

Lemma scan_error_match_has_the_format_witness :
  RowScanIndexRe.FindStringSubmatch "sql: Scan error on column index 0: boom"
  = Some ("0", "boom")
  ∧ ∃ before,
      "sql: Scan error on column index 0: boom"
      = before +:+ "index " +:+ "0" +:+ ": " +:+ "boom"
      ∧ "0" ≠ "" ∧ Strings.all_chars Strings.is_digit "0" = true
      ∧ "boom" ≠ ""
      ∧ Strings.all_chars
          (λ c, negb (bool_decide (c = RowScanIndexRe.line_feed))) "boom" = true
      ∧ ScanRow_error [RNil] "sql: Scan error on column index 0: boom"
        ≠ Ok (Some (CursorError "sql: Scan error on column index 0: boom")).
Proof.
  split; [reflexivity|].
  apply (scan_error_match_has_the_format [RNil]
           "sql: Scan error on column index 0: boom" "0" "boom").
  reflexivity.
Defined.

(** ** What a scan stores *)

Section Stores.



Lemma ScanRow_receivers_length this tarval scanOrder scan :
  ScanRow_receivers this tarval scanOrder = Ok scan →
  length scan = length scanOrder.
Proof.
  revert scan. induction scanOrder as [|col rest IH]; intros scan.
  - by intros [= <-].
  - cbn [ScanRow_receivers].
    destruct (match dbToStruct this !! col with
              | Some _ => _ | None => _ end) as [r|];
      cbn [mbind outcome_bind]; [|done].
    destruct (ScanRow_receivers this tarval rest) as [rs|];
      cbn [mbind outcome_bind]; [|done].
    intros [= <-]. simpl. by rewrite (IH rs).
Qed.

Lemma receiver_dests_length target scan dests :
  receiver_dests target scan = Ok dests → length dests = length scan.
Proof.
  revert dests. induction scan as [|r scan IH]; intros dests.
  - by intros [= <-].
  - cbn [receiver_dests].
    destruct (receiver_dest target r) as [d|]; cbn [mbind outcome_bind]; [|done].
    destruct (receiver_dests target scan) as [ds|];
      cbn [mbind outcome_bind]; [|done].
    intros [= <-]. simpl. by rewrite (IH ds).
Qed.

End Stores.

(** X13. [ScanRow] hands [row.Scan] exactly one destination per name of
    [scanOrder], in the order of the names, whether or not the names are
    columns of the mapping. *)
Theorem ScanRow_one_destination_per_name (this : Mapping)
    (tarval : Reflect.Value) (target : Data) (scanOrder : list string)
    (scan : list receiver) (dests : list dest) :
  ScanRow_receivers this tarval scanOrder = Ok scan →
  receiver_dests target scan = Ok dests →
  length dests = length scanOrder.
Proof.
  intros Hscan Hdests.
  by rewrite (receiver_dests_length _ _ _ Hdests),
             (ScanRow_receivers_length _ _ _ _ Hscan).
Qed.

Lemma ScanRow_one_destination_per_name_witness :
  ScanRow_receivers (Examples.schema Examples.Named)
    (Reflect.Place [] Examples.Named) ["zzz"; "foo"]
  = Ok [RNil; RAddr ["Foo"] Examples.string_]
  ∧ receiver_dests (Examples.named "a") [RNil; RAddr ["Foo"] Examples.string_]
    = Ok [None; Some (Reflect.PtrTo Examples.string_, DString "a")]
  ∧ length [None; Some (Reflect.PtrTo Examples.string_, DString "a")]
    = length ["zzz"; "foo"].
Proof.
  split; [vm_compute; reflexivity|]. split; [vm_compute; reflexivity|].
  apply (ScanRow_one_destination_per_name (Examples.schema Examples.Named)
           (Reflect.Place [] Examples.Named) (Examples.named "a")
           ["zzz"; "foo"] [RNil; RAddr ["Foo"] Examples.string_]);
    vm_compute; reflexivity.
Defined.

(** X14. For a mapping built by [StructMapping] from the registry of the
    [init] functions, a successful [ScanRow] changes no variable of the
    target that is apart from the variables it resolves for the names of
    [scanOrder]. *)
Theorem ScanRow_changes_resolved_places_only {R} `{!Row R}
    (recordType t : Reflect.type) (target target' : Data) (row row' : R)
    (scanOrder p : list string) :
  ScanRow (StructMapping init_mappers recordType).1 t target row scanOrder
  = (Ok None, target', row') →
  (∀ col q, col ∈ scanOrder →
     column_place (StructMapping init_mappers recordType).1
       (Reflect.Place [] t) col = Some q →
     Store.apart p q) →
  Store.get p target' = Store.get p target.
Proof.
  intros Hscan Hplaces.
  eapply ScanRow_frame; [|exact Hscan|exact Hplaces].
  intros name mapper Hmapper.
  assert (Hreg : map_Forall (λ _ mapper, mapper ∈ init_mappers)
                   (mapping (StructMapping init_mappers recordType).1)).
  { rewrite StructMapping_cases. destruct (negb _); simpl.
    { apply map_Forall_empty. }
    pose proof (mapStruct_registered init_mappers recordType noNesting
                  {| structType := Some recordType; dbToStruct := ∅;
                     mapping := ∅; scanNesting := ∅ |}) as Hreg.
    destruct (mapStruct _ _ _ _) as [m [err|]]; simpl in *.
    - apply map_Forall_empty.
    - apply Hreg, map_Forall_empty. }
  pose proof init_mappers_receive_in_place as Hall.
  rewrite Forall_forall in Hall. apply Hall. by eapply Hreg.
Qed.

Lemma ScanRow_changes_resolved_places_only_witness :
  ScanRow (StructMapping init_mappers Examples.Account).1 Examples.Account
    Examples.account Examples.base_id_row ["base_id"]
  = (Ok None, DStruct [("Base", DStruct [("ID", DInt 1)]); ("ID", DInt 7)],
     Examples.base_id_row)
  ∧ Store.get ["Base"; "ID"]
      (DStruct [("Base", DStruct [("ID", DInt 1)]); ("ID", DInt 7)])
    = Store.get ["Base"; "ID"] Examples.account.
Proof.
  assert (Hscan : ScanRow (StructMapping init_mappers Examples.Account).1
                    Examples.Account Examples.account Examples.base_id_row
                    ["base_id"]
                  = (Ok None,
                     DStruct [("Base", DStruct [("ID", DInt 1)]); ("ID", DInt 7)],
                     Examples.base_id_row)).
  { vm_compute. reflexivity. }
  split; [exact Hscan|].
  apply (ScanRow_changes_resolved_places_only Examples.Account Examples.Account
           Examples.account _ Examples.base_id_row Examples.base_id_row
           ["base_id"] ["Base"; "ID"] Hscan).
  intros col q Hcol%list_elem_of_singleton. subst col.
  vm_compute. intros [= <-].
  split; intros [k Hk]; discriminate Hk.
Defined.





(** X17. [jsonMapper] accepts every defined type whose underlying type is
    [map[string]interface{}], but its [Copy] panics on every such type other
    than [jsonScanner] itself: [Value.Set] refuses a [jsonScanner] for a
    variable of another defined type. *)
Theorem jsonMapper_accepts_defined_maps_it_cannot_copy
    (name : string) (methods ptrMethods : list string) (old : Data)
    (scanned : receiver) :
  name ≠ "dbmap.jsonScanner" →
  Accepts jsonMapper (Reflect.Named name methods ptrMethods map_string_interface)
  = true
  ∧ ∃ reason,
      Copy jsonMapper (Reflect.Named name methods ptrMethods map_string_interface)
        old scanned
      = Panic reason.
Proof.
  intros Hname. split; [reflexivity|].
  destruct scanned as [|path typ|typ contents]; simpl; [by eexists..|].
  destruct (Reflect.identical false typ jsonScanner); [|by eexists].
  unfold AssignableTo. simpl.
  rewrite (bool_decide_false ("dbmap.jsonScanner" = name)) by done.
  by eexists.
Qed.

Lemma jsonMapper_accepts_defined_maps_it_cannot_copy_witness :
  "MyCustomJSONMap" ≠ "dbmap.jsonScanner"
  ∧ Accepts jsonMapper Samples.MyCustomJSONMap = true
  ∧ ∃ reason,
      Copy jsonMapper Samples.MyCustomJSONMap DNil
        (RNew jsonScanner (DMap [("foo", DString "bar")]))
      = Panic reason.
Proof.
  split; [done|].
  apply (jsonMapper_accepts_defined_maps_it_cannot_copy "MyCustomJSONMap" [] []
           DNil (RNew jsonScanner (DMap [("foo", DString "bar")]))).
  done.
Defined.

(** ** Consuming a cursor *)

Section RowOfScanRow.

Context {R : Type} `{!Row R}.

(** [ScanRow] touches the row through one call of [Scan] at most. *)
Lemma ScanRow_row (this : Mapping) (t : Reflect.type) (target : Data)
    (row : R) (scanOrder : list string) :
  (ScanRow this t target row scanOrder).2 = row
  ∨ ∃ dests, (ScanRow this t target row scanOrder).2 = (Scan row dests).2.
Proof.
  unfold ScanRow.
  destruct (structType this) as [recordType|]; [|by left].
  destruct (negb _); [by left|].
  destruct (ScanRow_receivers _ _ _) as [scan|]; [|by left].
  destruct (receiver_dests _ _) as [dests|]; [|by left].
  right. exists dests.
  destruct (Scan row dests) as [[writes verdict] row'].
  destruct (apply_writes _ _ _) as [[scan' target']|]; [|done].
  destruct verdict; [|done..].
  by destruct (ScanRow_copy _ _ _ _ _).
Qed.

End RowOfScanRow.

(** X18. [ScanOne] never reports a row together with an error, and when it
    reports neither a row nor an error it has left the target as it was. *)
Theorem ScanOne_results {R} `{!Rows R} (this : Mapping) (t : Reflect.type)
    (target target' : Data) (rows rows' : R) (ok : bool) (err : option error) :
  ScanOne this t target rows = (Ok (ok, err), target', rows') →
  (ok = true → err = None)
  ∧ (ok = false → err = None → target' = target).
Proof.
  unfold ScanOne.
  destruct (Columns rows) as [[cols|e] rows1].
  - destruct (Next rows1) as [[] rows2].
    + destruct (ScanRow this t target rows2 cols) as [[[[e|]|p] target1] rows3];
        intros [= <- <- <- <-]; by split.
    + intros [= <- <- <- <-]; by split.
  - intros [= <- <- <- <-]; by split.
Qed.

Lemma ScanOne_results_witness :
  (false = true → @None error = None)
  ∧ (false = false → @None error = None →
     Examples.named "kept" = Examples.named "kept").
Proof.
  apply (ScanOne_results (Examples.schema Examples.Named) Examples.Named
           (Examples.named "kept") (Examples.named "kept") Examples.no_rows
           (Close Examples.no_rows).2 false None).
  reflexivity.
Defined.

(** X19. On a cursor that counts the calls of [Close], [ScanOne] closes the
    cursor exactly once, whichever way it ends: no columns, no row, an error
    of the scan, a panic of the scan, or a row. *)
Theorem ScanOne_closes_once (this : Mapping) (t : Reflect.type)
    (target : Data) (rows : Replay.Cursor) :
  Replay.closed (ScanOne this t target rows).2 = S (Replay.closed rows).
Proof.
  unfold ScanOne. cbn [Columns Replay.Cursor_Rows].
  destruct (Replay.columns rows) as [cols|e]; [|done].
  destruct (Next rows) as [more rows2] eqn:Hnext.
  assert (Replay.closed rows2 = Replay.closed rows) as Hclosed.
  { cbn in Hnext. destruct (Replay.pending rows); by injection Hnext as <- <-. }
  destruct more; [|by cbn; rewrite Hclosed].
  pose proof (ScanRow_row this t target rows2 cols) as Hrow.
  destruct (ScanRow this t target rows2 cols) as [[res target1] rows3].
  assert (rows3 = rows2) as ->.
  { destruct Hrow as [Hrow|[dests Hrow]]; [done|].
    cbn in Hrow. by destruct (Replay.current rows2). }
  destruct res as [[e|]|p]; by cbn; rewrite Hclosed.
Qed.

Section Stream.

Context {R : Type} `{!Rows R}.
Variable this : Mapping.

(** X20. An error sent over the channel of [ScanStream] is its last
    element: the goroutine returns after the send, so the next receive finds
    the channel closed, and the cursor closed after the send. *)
Theorem ScanStream_error_is_last (p p' : producer R) (err : error) :
  ScanStream_receive this p = (Some (ElemError err), p') →
  ∃ rows, p' = Returning rows
    ∧ ScanStream_receive this p' = (None, Finished (Close rows).2).
Proof.
  assert (∀ cols rows,
    ScanStream_loop this cols rows = (Some (ElemError err), p') →
    ∃ rows', p' = Returning rows') as Hloop.
  { intros cols rows. unfold ScanStream_loop.
    destruct (Next rows) as [[] rows1].
    - destruct (structType this) as [recordType|]; [|done].
      destruct (ScanRow _ _ _ _ _) as [[[[e|]|reason] scan] rows2];
        intros [= <- <-] || intros [=]; by eexists.
    - destruct (Err rows1) as [[e|] rows2];
        intros [= <- <-] || intros [=]; by eexists. }
  intros Hreceive.
  assert (∃ rows, p' = Returning rows) as [rows ->]; [|by exists rows].
  destruct p as [rows|cols rows|rows|rows|reason rows]; simpl in Hreceive;
    [|by eapply Hloop|done..].
  destruct (Columns rows) as [[cols|e] rows1]; [by eapply Hloop|].
  injection Hreceive as <- <-. by eexists.
Qed.

End Stream.

Lemma ScanStream_error_is_last_witness :
  ∃ rows,
    Returning Samples.no_columns = Returning rows
    ∧ ScanStream_receive (Examples.schema Examples.Named)
        (Returning Samples.no_columns)
      = (None, Finished (Close rows).2).
Proof.
  apply (ScanStream_error_is_last (Examples.schema Examples.Named)
           (ScanStream (Examples.schema Examples.Named) Samples.no_columns)
           (Returning Samples.no_columns)
           (CursorError "sql: Rows are closed")).
  reflexivity.
Defined.

(** X21. Over a cursor that counts the calls of [Close], the goroutine of
    [ScanStream] closes the cursor exactly once, and it has done so exactly
    when a receive finds the channel closed. *)
Theorem ScanStream_closes_once (this : Mapping) (k : nat)
    (p : producer Replay.Cursor) :
  closed_by k p →
  closed_by k (ScanStream_receive this p).2
  ∧ ((ScanStream_receive this p).1 = None →
     match (ScanStream_receive this p).2 with
     | Finished rows | Crashed _ rows => Replay.closed rows = S k
     | _ => False
     end).
Proof.
  assert (∀ cols rows, Replay.closed rows = k →
    closed_by k (ScanStream_loop this cols rows).2
    ∧ ((ScanStream_loop this cols rows).1 = None →
       match (ScanStream_loop this cols rows).2 with
       | Finished rows | Crashed _ rows => Replay.closed rows = S k
       | _ => False
       end)) as Hloop.
  { intros cols rows Hk. unfold ScanStream_loop.
    destruct (Next rows) as [more rows1] eqn:Hnext.
    assert (Replay.closed rows1 = k) as Hk1.
    { cbn in Hnext. destruct (Replay.pending rows);
        by injection Hnext as <- <-. }
    destruct more.
    - destruct (structType this) as [recordType|];
        [|by cbn; rewrite Hk1].
      pose proof (ScanRow_row this recordType (Store.zero recordType) rows1 cols)
        as Hrow.
      destruct (ScanRow _ _ _ _ _) as [[res scan] rows2].
      assert (rows2 = rows1) as ->.
      { destruct Hrow as [Hrow|[dests Hrow]]; [done|].
        cbn in Hrow. by destruct (Replay.current rows1). }
      destruct res as [[e|]|reason]; cbn; by rewrite ?Hk1.
    - cbn. destruct (Replay.end_error rows1); cbn; by rewrite ?Hk1. }
  destruct p as [rows|cols rows|rows|rows|reason rows]; simpl; intros Hk.
  - destruct (Replay.columns rows) as [cols|e]; [by apply Hloop|].
    by split.
  - by apply Hloop.
  - by rewrite Hk.
  - done.
  - done.
Qed.

Lemma ScanStream_closes_once_witness :
  closed_by 0 (ScanStream (Examples.schema Examples.Named) Examples.no_rows)
  ∧ closed_by 0
      (ScanStream_receive (Examples.schema Examples.Named)
         (ScanStream (Examples.schema Examples.Named) Examples.no_rows)).2
  ∧ ((ScanStream_receive (Examples.schema Examples.Named)
        (ScanStream (Examples.schema Examples.Named) Examples.no_rows)).1 = None →
     match (ScanStream_receive (Examples.schema Examples.Named)
              (ScanStream (Examples.schema Examples.Named) Examples.no_rows)).2 with
     | Finished rows | Crashed _ rows => Replay.closed rows = 1
     | _ => False
     end).
Proof.
  split; [reflexivity|].
  apply (ScanStream_closes_once (Examples.schema Examples.Named) 0
           (ScanStream (Examples.schema Examples.Named) Examples.no_rows)).
  reflexivity.
Defined.

Section Gathering.

Context {R : Type} `{!Rows R}.
Variables (this : Mapping) (recordType : Reflect.type) (cols : list string).
Hypothesis Htype : structType this = Some recordType.
Hypothesis Hplain : Reflect.Implements recordType error_interface = false.


End Gathering.







(** X24. When the record type itself has an [Error] method, [ScanAll]
    takes the first record that scans for an error: it returns the nil
    result with that record as the error, and leaves the goroutine of
    [ScanStream] inside its loop, the cursor not closed. *)
Theorem ScanAll_record_with_Error_method {R} `{!Rows R} (this : Mapping)
    (recordType : Reflect.type) (rows rows1 rows2 rows3 : R)
    (cols : list string) (record : Data) (fuel : nat) :
  structType this = Some recordType →
  Reflect.Implements recordType error_interface = true →
  Columns rows = (inl cols, rows1) →
  Next rows1 = (true, rows2) →
  ScanRow this recordType (Store.zero recordType) rows2 cols
  = (Ok None, record, rows3) →
  ScanAll (S fuel) this rows
  = Some (Ok (None, Some (RecordAsError record)), Looping cols rows3).
Proof.
  intros Htype Himpl Hcols Hnext Hscan.
  unfold ScanAll, ScanStream. rewrite Htype.
  cbn -[Reflect.Implements]. rewrite Hcols. unfold ScanStream_loop.
  rewrite Hnext, Htype, Hscan. cbn -[Reflect.Implements].
  by rewrite Htype, Himpl.
Qed.

Lemma ScanAll_record_with_Error_method_witness :
  Reflect.Implements Samples.Failure error_interface = true
  ∧ ScanAll 1 (Examples.schema Samples.Failure) Samples.two_rows
    = Some (Ok (None, Some (RecordAsError (Examples.named "a"))),
            Looping ["foo"] (Next Samples.two_rows).2).
Proof.
  split; [reflexivity|].
  apply (ScanAll_record_with_Error_method (Examples.schema Samples.Failure)
           Samples.Failure Samples.two_rows Samples.two_rows
           (Next Samples.two_rows).2 (Next Samples.two_rows).2 ["foo"]
           (Examples.named "a") 0);
    [reflexivity | reflexivity | reflexivity | reflexivity
    | vm_compute; reflexivity].
Defined.

(** ** The mappers of the package *)

(** X25. [nativeMapper] goes by the kind, not by the type: it accepts every
    type of a scalar kind, defined types included, and every pointer to
    one. *)
Theorem nativeMapper_accepts_scalars_and_pointers (t : Reflect.type) :
  scalar_kind (Reflect.kind t) = true →
  Accepts nativeMapper t = true
  ∧ Accepts nativeMapper (Reflect.PtrTo t) = true.
Proof.
  intros Hkind. split.
  - cbn [Accepts nativeMapper]. unfold nativeMapper_Accepts.
    assert (Reflect.kind t ≠ Reflect.Ptr) as Hptr.
    { intros Heq. by rewrite Heq in Hkind. }
    rewrite (bool_decide_false _ Hptr). cbn [negb].
    by destruct (Reflect.kind t).
  - cbn [Accepts nativeMapper]. unfold nativeMapper_Accepts.
    change (Reflect.kind (Reflect.PtrTo t)) with Reflect.Ptr.
    change (Reflect.underlying (Reflect.PtrTo t)) with (Reflect.PtrTo t).
    rewrite bool_decide_true by done. cbn [negb].
    by destruct (Reflect.kind t).
Qed.

Lemma nativeMapper_accepts_scalars_and_pointers_witness :
  scalar_kind (Reflect.kind Examples.Amount) = true
  ∧ Accepts nativeMapper Examples.Amount = true
  ∧ Accepts nativeMapper (Reflect.PtrTo Examples.Amount) = true.
Proof.
  split; [reflexivity|].
  apply (nativeMapper_accepts_scalars_and_pointers Examples.Amount).
  reflexivity.
Defined.



(** ** Rows and cursors held in memory *)

Lemma String_leb_Total : Total (λ a b : string, Is_true (String.leb a b)).
Proof.
  intros a b. destruct (String.leb_total a b) as [H|H]; [left|right];
    by rewrite H.
Qed.

Section TestRow.

Context `{F : !TestUtil.Foreign}.


End TestRow.

(** X27. [TestRow.Cols] lists the keys of the row, each once, in ascending
    byte order. *)
Theorem Cols_sorted_keys (row : TestUtil.TestRow) :
  Sorted (λ a b, Is_true (String.leb a b)) (TestUtil.Cols row)
  ∧ NoDup (TestUtil.Cols row)
  ∧ ∀ col, col ∈ TestUtil.Cols row ↔ is_Some (row !! col).
Proof.
  unfold TestUtil.Cols, TestUtil.sort_Strings. split_and!.
  - apply Sorted_merge_sort, String_leb_Total.
  - rewrite merge_sort_Permutation. apply NoDup_fst_map_to_list.
  - intros col. rewrite merge_sort_Permutation, list_elem_of_fmap. split.
    + intros ([col' v] & -> & Hin). apply elem_of_map_to_list in Hin.
      by exists v.
    + intros [v Hv]. exists (col, v). split; [done|].
      by apply elem_of_map_to_list.
Qed.


(** X29. [TestRows.Next] counts: after [n] calls from [Current = start] the
    cursor stands at [start + n], and the next call reports a row exactly
    when [start + n + 1] is below the number of rows.  Starting from -1
    every row is visited; starting from 0 the first row is skipped. *)
Theorem TestRows_Next_counts `{F : !TestUtil.Foreign}
    (rows : list TestUtil.TestRow) (start : Z) (n : nat) :
  (- 2 ^ 63 ≤ start)%Z →
  (start + Z.of_nat n + 1 < 2 ^ 63)%Z →
  TestUtil.Rows_
    (Nat.iter n (λ tr, (Next tr).2)
       {| TestUtil.Rows_ := rows; TestUtil.Current := start |}) = rows
  ∧ TestUtil.Current
      (Nat.iter n (λ tr, (Next tr).2)
         {| TestUtil.Rows_ := rows; TestUtil.Current := start |})
    = (start + Z.of_nat n)%Z
  ∧ (Next
       (Nat.iter n (λ tr, (Next tr).2)
          {| TestUtil.Rows_ := rows; TestUtil.Current := start |})).1
    = bool_decide (start + Z.of_nat n + 1 < Z.of_nat (length rows))%Z.
Proof.
  intros Hlow Hhigh.
  assert (∀ z, (- 2 ^ 63 ≤ z < 2 ^ 63)%Z → Strconv.wrap_int z = z) as Hwrap.
  { intros z Hz. unfold Strconv.wrap_int. rewrite Z.mod_small; lia. }
  assert (∀ k, (k ≤ n)%nat →
    TestUtil.Rows_
      (Nat.iter k (λ tr, (Next tr).2)
         {| TestUtil.Rows_ := rows; TestUtil.Current := start |}) = rows
    ∧ TestUtil.Current
        (Nat.iter k (λ tr, (Next tr).2)
           {| TestUtil.Rows_ := rows; TestUtil.Current := start |})
      = (start + Z.of_nat k)%Z) as Hiter.
  { induction k as [|k IH]; intros Hk.
    - simpl. split; [done|lia].
    - destruct IH as [Hrows Hcur]; [lia|].
      rewrite Nat.iter_succ.
      destruct (Nat.iter k _ _) as [rs cur].
      cbn [TestUtil.Rows_ TestUtil.Current] in Hrows, Hcur. subst rs cur.
      cbn [Next TestUtil.TestRows_Rows snd TestUtil.Rows_ TestUtil.Current].
      split; [done|]. rewrite Hwrap; lia. }
  destruct (Hiter n) as [Hrows Hcur]; [lia|].
  split_and!; [done..|].
  destruct (Nat.iter n _ _) as [rs cur].
  cbn [TestUtil.Rows_ TestUtil.Current] in Hrows, Hcur. subst rs cur.
  cbn [Next TestUtil.TestRows_Rows fst TestUtil.Rows_ TestUtil.Current].
  by rewrite Hwrap by lia.
Qed.

Lemma TestRows_Next_counts_witness :
  (- 2 ^ 63 ≤ -1)%Z
  ∧ (-1 + Z.of_nat 1 + 1 < 2 ^ 63)%Z
  ∧ TestUtil.Rows_
      (Nat.iter 1 (λ tr, (Next tr).2)
         {| TestUtil.Rows_ := [Examples.zzz_row]; TestUtil.Current := -1 |})
    = [Examples.zzz_row]
  ∧ TestUtil.Current
      (Nat.iter 1 (λ tr, (Next tr).2)
         {| TestUtil.Rows_ := [Examples.zzz_row]; TestUtil.Current := -1 |})
    = (-1 + Z.of_nat 1)%Z
  ∧ (Next
       (Nat.iter 1 (λ tr, (Next tr).2)
          {| TestUtil.Rows_ := [Examples.zzz_row]; TestUtil.Current := -1 |})).1
    = bool_decide (-1 + Z.of_nat 1 + 1 < Z.of_nat (length [Examples.zzz_row]))%Z.
Proof.
  split; [lia|]. split; [lia|].
  apply (TestRows_Next_counts [Examples.zzz_row] (-1) 1); lia.
Defined.

(** ** The scanner of JSON columns *)

(** X30. What [jsonScanner.Value] returns, [jsonScanner.Scan] takes: the
    value is a string, one of the two types of the switch, so scanning it
    decodes the very text the encoder wrote, and fails only if the decoder
    does. *)
Theorem jsonScanner_Scan_takes_Value (Decode : string → Data → Data * option string)
    (Encode : Data → string + string) (js js0 : Data) (text : string) :
  Encode js = inl text →
  (Json.jsonScanner_Value Encode js).2 = None
  ∧ Json.jsonScanner_Scan Decode js0 (Json.jsonScanner_Value Encode js).1
    = ((Decode text js0).1, Json.DecodeFailed <$> (Decode text js0).2).
Proof.
  intros Htext. unfold Json.jsonScanner_Value. rewrite Htext.
  split; [done|]. simpl. by destruct (Decode text js0).
Qed.

Lemma jsonScanner_Scan_takes_Value_witness :
  (Json.jsonScanner_Value (λ _, inl "{}") (DMap [])).2 = None
  ∧ Json.jsonScanner_Scan (λ _ js, (js, None)) (DMap [])
      (Json.jsonScanner_Value (λ _, inl "{}") (DMap [])).1
    = (DMap [], None).
Proof.
  apply (jsonScanner_Scan_takes_Value (λ _ js, (js, None)) (λ _, inl "{}")
           (DMap []) (DMap []) "{}").
  reflexivity.
Defined.
